(** * changelogGeneratorService: the job pipeline of [server.js]

    A shallow embedding of the Express server in [src/server.js]: the
    in-memory job table [changelogJobs], the background function
    [generateChangelogAsync] with the three stages it awaits
    ([fetchCommitsInDateRange], [generateChangelogFromCommits],
    [storeChangelog]), the routes that submit a job and poll its status,
    the commits listing with its paging in double arithmetic, the
    changelog listing, the origin check of the CORS set-up, and what the
    registered middleware leaves in [req.body].

    JavaScript's [async] functions are embedded as terms of a small free
    monad [Async] whose nodes are the points where the source suspends
    ([await]) or touches shared state. GitHub, the completion endpoint and
    the document store are collaborators whose answers are parameters. The
    Node event loop is a step function on the server state: one step
    handles a request or the settling of an awaited collaborator request,
    and then runs the microtasks. *)

From Stdlib Require Import Ascii String ZArith Lia.
From stdpp Require Import base gmap strings list pretty.

Open Scope Z_scope.
Open Scope string_scope.
Open Scope list_scope.

(** ** JavaScript values: strings, truthiness, numbers *)

Module Js.

Definition nl_char : ascii := "010"%char.
Definition nl : string := String nl_char "".
Definition dq : string := String "034"%char "".

(** [s.split('\n')]: never empty, the empty string splits to one empty
    line. *)
Fixpoint split_nl (s : string) : list string :=
  match s with
  | "" => [""]
  | String c s' =>
      if decide (c = nl_char) then "" :: split_nl s'
      else match split_nl s' with
           | l :: ls => String c l :: ls
           | [] => [String c ""]
           end
  end.

(** [arr.join(sep)] *)
Fixpoint join (sep : string) (l : list string) : string :=
  match l with
  | [] => ""
  | [x] => x
  | x :: rest => x +:+ sep +:+ join sep rest
  end.

(** [s.includes(t)] *)
Definition includes (s t : string) : Prop := exists pre post, s = pre +:+ t +:+ post.

(** [arr.slice(0, n)] for [0 <= n] *)
Definition slice0 {A} (n : nat) (l : list A) : list A := take n l.

(** Truthiness of a value that is [undefined] or a string. *)
Definition truthy (v : option string) : bool :=
  match v with
  | Some (String _ _) => true
  | _ => false
  end.

(** [v || null] on such a value: a falsy one becomes [null]. *)
Definition or_null (v : option string) : option string :=
  if truthy v then v else None.

(** [n || d] on a number: [NaN] ([None]) and [0] are falsy. *)
Definition num_or (n : option Z) (d : Z) : Z :=
  match n with
  | Some z => if decide (z = 0) then d else z
  | None => d
  end.

(** A [Date] object is its time value; [None] is the invalid date, whose
    time value is [NaN]. *)
Definition JsDate := option Z.

(** [a > b] on two dates: a comparison with [NaN] is false. *)
Definition date_gt (a b : JsDate) : bool :=
  match a, b with
  | Some x, Some y => bool_decide (y < x)
  | _, _ => false
  end.

(** *** Numbers

    Every JavaScript number is a double: 53 significant bits, each result
    rounded to the nearest double, a tie going to the even significand.
    The numbers of the paging are integers; a double that is an integer is
    its value in [Z], one that is not is a pair [(m, e)] standing for
    [m * 2^e]. The exponent is not bounded: infinities, which no integer
    in [Z] stands for, and subnormal numbers are not modelled. *)

(** The integer nearest to [num / den], for [0 <= num] and [0 < den]. *)
Definition nearest_even (num den : Z) : Z :=
  let q := num / den in
  let r := num mod den in
  if decide (2 * r < den) then q
  else if decide (den < 2 * r) then q + 1
  else if Z.even q then q else q + 1.

(** [a / (b * 2^e)] as a fraction of two integers. *)
Definition scaled (a b e : Z) : Z * Z :=
  if decide (0 <= e) then (a, b * 2 ^ e) else (a * 2 ^ (- e), b).

(** The exponent [e] of the double nearest to [a / b], for [0 < a] and
    [0 < b]: the one with [2^52 <= a / (b * 2^e) < 2^53]. *)
Definition exponent (a b : Z) : Z :=
  let e := Z.log2 a - Z.log2 b - 53 in
  let '(n, d) := scaled a b e in
  if decide (n / d < 2 ^ 53) then e else e + 1.

(** The double nearest to [a / b], for [b <> 0]. *)
Definition round_ratio (a b : Z) : Z * Z :=
  if decide (a = 0 \/ b = 0) then (0, 0)
  else
    let e := exponent (Z.abs a) (Z.abs b) in
    let '(n, d) := scaled (Z.abs a) (Z.abs b) e in
    (Z.sgn a * Z.sgn b * nearest_even n d, e).

(** The double nearest to the integer [n]: [n] itself up to [2^53] in
    magnitude, a multiple of a power of two beyond. *)
Definition round_int (n : Z) : Z :=
  if decide (Z.abs n <= 2 ^ 53) then n
  else let '(m, e) := round_ratio n 1 in m * 2 ^ e.

(** [a + b], [a * b] and [a / b] on integers. *)
Definition num_add (a b : Z) : Z := round_int (a + b).
Definition num_mul (a b : Z) : Z := round_int (a * b).
Definition num_div (a b : Z) : Z * Z := round_ratio a b.

(** [Math.ceil(x)] *)
Definition Math_ceil (x : Z * Z) : Z :=
  let '(m, e) := x in
  if decide (0 <= e) then m * 2 ^ e else - ((- m) / 2 ^ (- e)).

Definition no_nl (s : string) : Prop := nl_char ∉ list_ascii_of_string s.

#[global] Instance no_nl_dec s : Decision (no_nl s).
Proof. unfold no_nl. apply _. Defined.

End Js.

Import Js.

(** ** Data model *)

(** What [fetchCommitsInDateRange] returns per commit. *)
Record CommitSummary := {
  sha : string;
  message : string;
  author : string;
  date : string
}.

(** One entry of [response.data] of [octokit.repos.listCommits]:
    [commit.sha], [commit.commit.message], [commit.commit.author.name],
    [commit.commit.author.date]. *)
Record ApiCommit := {
  api_sha : string;
  api_message : string;
  api_author_name : string;
  api_author_date : string
}.

Record ListResponse := {
  headers_link : option string;
  data : list ApiCommit
}.

Record FileChange := { patch : option string }.

(** [detailedCommit.data] of [octokit.repos.getCommit]. *)
Record CommitData := {
  stats_additions : Z;
  stats_deletions : Z;
  data_files : list FileChange
}.

Record CommitDetail := {
  cd_message : string;
  cd_link : string;
  cd_additions : Z;
  cd_deletions : Z;
  cd_files : list FileChange
}.

(** The summarizer's JSON: [{changes: [{category, items: [{description,
    commitLink}]}]}]. *)
Record DraftItem := { description : string; commitLink : string }.
Record DraftSection := { category : string; items : list DraftItem }.
Record ChangelogDraft := { changes : list DraftSection }.

(** The document handed to [addDoc]. *)
Record BulletPoint := {
  bulletPointDetails : string;
  linkToRelevantCommit : string
}.
Record Section_ := { heading : string; bulletPoints : list BulletPoint }.
Record ChangelogData := {
  timestampOfMostRecentCommit : string;
  version : option string;
  title : option string;
  startDate : option string;
  endDate : option string;
  sections : list Section_
}.

(** The [changelog] field of a completed job. *)
Record JobChangelog := {
  jc_id : string;
  jc_date : Z;
  jc_version : option string;
  jc_title : option string;
  jc_changes : list DraftSection
}.

(** A value of the job table. Absent keys of the JavaScript object are
    [None]. *)
Record Job := {
  status : string;
  completed : bool;
  changelog : option JobChangelog;
  error : option string
}.

Inductive Exn :=
| TypeError (msg : string)
| RangeError (msg : string)
| SyntaxError (msg : string)
| Rejected (detail : string).

(** ** Prompt construction ([generateChangelogFromCommits], lines 76-128) *)

Definition spaces (n : nat) : string := string_of_list_ascii (replicate n " "%char).

Definition patchPreview (p : option string) : string :=
  match p with
  | Some s =>
      if truthy p then
        join nl (slice0 5 (split_nl s))
          +:+ (if decide (5 < length (split_nl s))%nat then nl +:+ "..." else "")
      else ""
  | None => ""
  end.

Definition renderFile (f : FileChange) : string :=
  nl +:+ spaces 20 +:+ "Preview of changes:" +:+ nl
     +:+ spaces 20 +:+ patchPreview (patch f) +:+ nl
     +:+ spaces 20.

Definition fileChangeSummary (c : CommitDetail) : string :=
  join nl (map renderFile (cd_files c)).

Definition renderCommit (c : CommitDetail) : string :=
  nl +:+ spaces 16 +:+ "Commit Message: " +:+ cd_message c +:+ nl
     +:+ spaces 16 +:+ "Commit Link: " +:+ cd_link c +:+ nl
     +:+ spaces 16 +:+ "Modified Files:" +:+ nl
     +:+ spaces 16 +:+ fileChangeSummary c +:+ nl
     +:+ spaces 16.

Definition commitDescriptions (cs : list CommitDetail) : string :=
  join (nl +:+ "---" +:+ nl) (map renderCommit cs).

Definition promptHeader : list string := [
  "Given these detailed git commits, generate a user-friendly changelog.";
  "Group changes into categories like " +:+ dq +:+ "Features" +:+ dq +:+ ", "
     +:+ dq +:+ "Bug Fixes" +:+ dq +:+ ", " +:+ dq +:+ "Improvements" +:+ dq +:+ ", etc.";
  "Summarize the changes that would be relevant to an end-user in a few (less than 10 TOTAL) bullet points.";
  "Order the changes from first to last in order of importance.";
  "";
  "Important guidelines:";
  "- output a maximum of 10 total bullet points ";
  "- Focus on changes that affect the user experience directly";
  "- Exclude internal changes like version bumps, refactoring, or test updates";
  "- Use clear, non-technical language";
  "- Highlight new features, improvements, and bug fixes that users will notice";
  "- Mention breaking changes or important updates that require user attention";
  "- Keep descriptions concise but informative, don't just copy and paste the commit message";
  "- Include the relevant commit link with each change";
  "";
  "Format the response as JSON with the following structure:";
  "{";
  "    " +:+ dq +:+ "changes" +:+ dq +:+ ": [";
  "    {";
  "        " +:+ dq +:+ "category" +:+ dq +:+ ": " +:+ dq +:+ "string" +:+ dq +:+ ",";
  "        " +:+ dq +:+ "items" +:+ dq +:+ ": [";
  "            {";
  "                " +:+ dq +:+ "description" +:+ dq +:+ ": " +:+ dq +:+ "string" +:+ dq +:+ ",";
  "                " +:+ dq +:+ "commitLink" +:+ dq +:+ ": " +:+ dq +:+ "string" +:+ dq;
  "            }";
  "        ]";
  "    }";
  "    ]";
  "}";
  "";
  "Detailed Commit Information:"
].

Definition prompt (cs : list CommitDetail) : string :=
  join nl promptHeader +:+ nl +:+ commitDescriptions cs.

(** ** Collaborators and shared state *)

(** A request to an external collaborator, indexed by what it answers.
    [owner] and [repo] are the fixed [REPO_OWNER] and [REPO_NAME]; the chat
    completion is asked with the fixed model and system message, so only
    the user prompt varies. *)
Inductive IO : Type -> Type :=
| ListCommits (since until : option string) (per_page page : option Z) : IO ListResponse
| GetCommit (ref : string) : IO CommitData
| ChatCreate (content : string) : IO string
| AddDoc (d : ChangelogData) : IO string.

(** What the code does synchronously to the process: writes of the job
    table, reads of the clock, the operators' log. *)
Inductive Eff : Type -> Type :=
| JobsSet (id : string) (j : Job) : Eff unit
| NewDate : Eff Z
| ConsoleError (label : string) (e : Exn) : Eff unit.

(** An [async] function body. [Await] suspends on a collaborator until a
    later turn of the event loop; [Tick] is an [await] of a promise made by
    another [async] function, which resumes in a microtask even if that
    promise is settled already. *)
Inductive Async (A : Type) : Type :=
| Ret (a : A)
| Throw (e : Exn)
| Tick (k : Async A)
| Do {B : Type} (op : Eff B) (k : B -> Async A)
| Await {B : Type} (io : IO B) (k : Exn + B -> Async A).

Arguments Ret {A} a.
Arguments Throw {A} e.
Arguments Tick {A} k.
Arguments Do {A B} op k.
Arguments Await {A B} io k.

Fixpoint bind {A B} (m : Async A) (f : A -> Async B) : Async B :=
  match m with
  | Ret a => f a
  | Throw e => Throw e
  | Tick k => Tick (bind k f)
  | Do op k => Do op (fun b => bind (k b) f)
  | Await io k => Await io (fun r => bind (k r) f)
  end.

(** [try { m } catch (error) { h error }] *)
Fixpoint try_catch {A} (m : Async A) (h : Exn -> Async A) : Async A :=
  match m with
  | Ret a => Ret a
  | Throw e => h e
  | Tick k => Tick (try_catch k h)
  | Do op k => Do op (fun b => try_catch (k b) h)
  | Await io k => Await io (fun r => try_catch (k r) h)
  end.

(** [await p] for the promise [p] of a call of an [async] function: the
    callee runs its synchronous prefix at once, the caller continues one
    microtask after the callee has settled. *)
Fixpoint await {A} (m : Async A) : Async A :=
  match m with
  | Ret a => Tick (Ret a)
  | Throw e => Tick (Throw e)
  | Tick k => Tick (await k)
  | Do op k => Do op (fun b => await (k b))
  | Await io k => Await io (fun r => await (k r))
  end.

(** [await] of a collaborator's promise. *)
Definition await_io {B} (io : IO B) : Async B :=
  Await io (fun r => match r with inl e => Throw e | inr b => Ret b end).

Definition lift {A} (r : Exn + A) : Async A :=
  match r with inl e => Throw e | inr a => Ret a end.

Definition perform {B} (op : Eff B) : Async B := Do op Ret.

#[global] Instance Async_ret : MRet Async := fun A a => Ret a.
#[global] Instance Async_bind : MBind Async := fun A B f m => bind m f.

(** [Promise.all(xs.map(async x => ...))]: the results in the order of
    [xs], or the rejection of a callback. The source starts every callback
    before it awaits any, and [Promise.all] rejects with the rejection that
    settles first. Here the callbacks are awaited one after the other: the
    requests settle in the order of [xs], and none is sent after one has
    been rejected. *)
Fixpoint promise_all {A} (ms : list (Async A)) : Async (list A) :=
  match ms with
  | [] => Ret []
  | m :: rest => bind m (fun a => bind (promise_all rest) (fun l => Ret (a :: l)))
  end.

(** The 'changelogs' collection: documents with the ids the store gave. *)
Definition Doc : Type := string * ChangelogData.

(** How the collaborators answer a request. The answer may depend on the
    collection, so that [addDoc] can hand out an id per document. *)
Definition Answers : Type := forall B, IO B -> list Doc -> Exn + B.

(** The builtins whose algorithm is not in the repository, the two
    environment variables, and the collaborators. *)
Record World := {
  Date_parse : string -> option Z;
  Date_toISOString : Z -> string;
  JSON_parse : string -> Exn + ChangelogDraft;
  parseInt : string -> option Z;
  match_last_page : string -> option string;
  REPO_OWNER : string;
  REPO_NAME : string;
  answer : Answers
}.

(** The process and the store. [journal] is an observer's record of every
    [changelogJobs.set] in order; the code never reads it. *)
Record Server := {
  changelogJobs : gmap string Job;
  db : list Doc;
  console : list (string * Exn);
  journal : list (string * Job)
}.

Definition set_job (id : string) (j : Job) (s : Server) : Server :=
  {| changelogJobs := <[id := j]> (changelogJobs s); db := db s;
     console := console s; journal := journal s ++ [(id, j)] |}.

Definition log_error (label : string) (e : Exn) (s : Server) : Server :=
  {| changelogJobs := changelogJobs s; db := db s;
     console := console s ++ [(label, e)]; journal := journal s |}.

Definition add_doc (id : string) (d : ChangelogData) (s : Server) : Server :=
  {| changelogJobs := changelogJobs s; db := db s ++ [(id, d)];
     console := console s; journal := journal s |}.

Definition do_eff {B} (now : Z) (op : Eff B) (s : Server) : Server * B :=
  match op in Eff B return Server * B with
  | JobsSet id j => (set_job id j s, tt)
  | NewDate => (s, now)
  | ConsoleError label e => (log_error label e s, tt)
  end.

(** The effect of a settled request on the store: a fulfilled [addDoc] has
    appended the document under the returned id. *)
Definition io_commit {B} (io : IO B) : Exn + B -> Server -> Server :=
  match io in IO B return Exn + B -> Server -> Server with
  | AddDoc d => fun r s => match r with inr id => add_doc id d s | inl _ => s end
  | _ => fun _ s => s
  end.

(** ** The pipeline *)

Section Pipeline.

Variable W : World.

(** [new Date(v)] for [v] a string or [undefined]. *)
Definition new_Date (v : option string) : JsDate :=
  match v with
  | Some s => Date_parse W s
  | None => None
  end.

(** [d.toISOString()] throws on the invalid date. *)
Definition toISOString (d : JsDate) : Exn + string :=
  match d with
  | Some t => inr (Date_toISOString W t)
  | None => inl (RangeError "Invalid time value")
  end.

Definition commit_link (sha : string) : string :=
  "https://github.com/" +:+ REPO_OWNER W +:+ "/" +:+ REPO_NAME W +:+ "/commit/" +:+ sha.

Definition summary_of (c : ApiCommit) : CommitSummary :=
  {| sha := api_sha c; message := api_message c;
     author := api_author_name c; date := api_author_date c |}.

(** [fetchCommitsInDateRange] (lines 218-237). The two dates are converted
    while the argument object is built, before the request is sent. *)
Definition fetchCommitsInDateRange (startDate endDate : option string)
  : Async (list CommitSummary) :=
  try_catch
    (since ← lift (toISOString (new_Date startDate));
     until ← lift (toISOString (new_Date endDate));
     response ← await_io (ListCommits (Some since) (Some until) None None);
     Ret (map summary_of (data response)))
    (fun error =>
       Do (ConsoleError "Error fetching commits in date range:" error)
          (fun _ => Throw error)).

Definition detail_of (commit : CommitSummary) : Async CommitDetail :=
  detailedCommit ← await_io (GetCommit (sha commit));
  Ret {| cd_message := message commit;
         cd_link := commit_link (sha commit);
         cd_additions := stats_additions detailedCommit;
         cd_deletions := stats_deletions detailedCommit;
         cd_files := map (fun file => {| patch := patch file |}) (data_files detailedCommit) |}.

(** [generateChangelogFromCommits] (lines 53-150). *)
Definition generateChangelogFromCommits (commits : list CommitSummary)
  : Async ChangelogDraft :=
  try_catch
    (commitDetails ← await (promise_all (map detail_of commits));
     content ← await_io (ChatCreate (prompt commitDetails));
     lift (JSON_parse W content))
    (fun error =>
       Do (ConsoleError "Error generating changelog:" error)
          (fun _ => Throw error)).

(** The callback of [commits.reduce(..., null)] (lines 155-158). *)
Definition later_of (latest : option CommitSummary) (current : CommitSummary)
  : option CommitSummary :=
  let currentDate := new_Date (Some (date current)) in
  match latest with
  | None => Some current
  | Some l =>
      if date_gt currentDate (new_Date (Some (date l))) then Some current else latest
  end.

Definition mostRecentCommit (commits : list CommitSummary) : option CommitSummary :=
  fold_left later_of commits None.

Definition section_of (change : DraftSection) : Section_ :=
  {| heading := category change;
     bulletPoints :=
       map (fun item => {| bulletPointDetails := description item;
                           linkToRelevantCommit := commitLink item |})
           (items change) |}.

Definition changelogData (changelog : ChangelogDraft) (latest : CommitSummary)
    (version title startDate endDate : option string) : ChangelogData :=
  {| timestampOfMostRecentCommit := date latest;
     version := or_null version;
     title := or_null title;
     startDate := startDate;
     endDate := endDate;
     sections := map section_of (changes changelog) |}.

(** [storeChangelog] (lines 153-182). Reading [.date] of [null] throws
    before the document is built. *)
Definition storeChangelog (changelog : ChangelogDraft) (commits : list CommitSummary)
    (version title startDate endDate : option string) : Async string :=
  try_catch
    (match mostRecentCommit commits with
     | None => Throw (TypeError "Cannot read properties of null (reading 'date')")
     | Some latest =>
         await_io (AddDoc (changelogData changelog latest version title startDate endDate))
     end)
    (fun error =>
       Do (ConsoleError "Error storing changelog:" error) (fun _ => Throw error)).

Definition processing_job : Job :=
  {| status := "processing"; completed := false; changelog := None; error := None |}.

Definition completed_job (cl : JobChangelog) : Job :=
  {| status := "completed"; completed := true; changelog := Some cl; error := None |}.

Definition error_job : Job :=
  {| status := "error"; completed := true; changelog := None;
     error := Some "Failed to generate changelog" |}.

(** The [try] block of [generateChangelogAsync] up to the write of the job
    table: the three awaited stages. *)
Definition stages (startDate endDate version title : option string)
  : Async (ChangelogDraft * string) :=
  commits ← await (fetchCommitsInDateRange startDate endDate);
  changelog ← await (generateChangelogFromCommits commits);
  changelogId ← await (storeChangelog changelog commits version title startDate endDate);
  Ret (changelog, changelogId).

(** [generateChangelogAsync] (lines 185-215). *)
Definition generateChangelogAsync (jobId : string)
    (startDate endDate version title : option string) : Async unit :=
  try_catch
    ('(changelog, changelogId) ← stages startDate endDate version title;
     now ← perform NewDate;
     perform (JobsSet jobId
       (completed_job {| jc_id := changelogId; jc_date := now;
                         jc_version := version; jc_title := title;
                         jc_changes := changes changelog |})))
    (fun error =>
       Do (ConsoleError "Error in async changelog generation:" error)
          (fun _ => perform (JobsSet jobId error_job))).

End Pipeline.

(** ** Running an [async] body *)

Section EventLoop.

Variable W : World.

(** Run to completion with the collaborators answering at once: the
    outcome of one call taken in isolation. *)
Fixpoint exec {A} (now : Z) (m : Async A) (s : Server) : Server * (Exn + A) :=
  match m with
  | Ret a => (s, inr a)
  | Throw e => (s, inl e)
  | Tick k => exec now k s
  | Do op k => let '(s', b) := do_eff now op s in exec now (k b) s'
  | Await io k =>
      let r := answer W _ io (db s) in
      exec now (k r) (io_commit io r s)
  end.

(** The stage of [generateChangelogAsync] whose [await] throws first, with
    what it throws; [None] when the three stages succeed. *)
Inductive Stage := Fetching | Summarizing | Persisting.

Definition first_failure (now : Z) (startDate endDate version title : option string)
    (s : Server) : option (Stage * Exn) :=
  match exec now (fetchCommitsInDateRange W startDate endDate) s with
  | (_, inl e) => Some (Fetching, e)
  | (s1, inr commits) =>
      match exec now (generateChangelogFromCommits W commits) s1 with
      | (_, inl e) => Some (Summarizing, e)
      | (s2, inr changelog) =>
          match exec now
                  (storeChangelog W changelog commits version title startDate endDate) s2 with
          | (_, inl e) => Some (Persisting, e)
          | (_, inr _) => None
          end
      end
  end.

(** The synchronous prefix: what a call does before it returns its promise
    to the caller. *)
Fixpoint run_sync {A} (now : Z) (m : Async A) (s : Server) : Server * Async A :=
  match m with
  | Do op k => let '(s', b) := do_eff now op s in run_sync now (k b) s'
  | _ => (s, m)
  end.

(** The microtask queue is emptied before the event loop takes the next
    event: a body waiting on a settled promise goes on until it waits for a
    collaborator or ends. *)
Fixpoint drain {A} (now : Z) (m : Async A) (s : Server) : Server * Async A :=
  match m with
  | Tick k => drain now k s
  | Do op k => let '(s', b) := do_eff now op s in drain now (k b) s'
  | _ => (s, m)
  end.

(** The awaited request settles, answered as [ans] says, and the body
    goes on. *)
Definition settle {A} (ans : Answers) (now : Z) (m : Async A) (s : Server)
  : Server * Async A :=
  match m with
  | Await io k =>
      let r := ans _ io (db s) in
      drain now (k r) (io_commit io r s)
  | _ => drain now m s
  end.

Definition is_done {A} (m : Async A) : bool :=
  match m with
  | Ret _ | Throw _ => true
  | _ => false
  end.

(** ** Routes *)

Record ReqBody := {
  body_startDate : option string;
  body_endDate : option string;
  body_version : option string;
  body_title : option string
}.

Record CommitItem := {
  ci_sha : string;
  ci_message : string;
  ci_author : string;
  ci_date : string;
  ci_link : string
}.

Inductive Response :=
| RespId (id : string)
| RespJob (j : Job)
| RespCommits (items : list CommitItem) (totalPages : Z) (hasMore : bool)
| RespError (code : Z) (msg : string).

(** A call of [generateChangelogAsync] that has not returned yet. *)
Record Task := { task_job : string; task_body : Async unit }.

(** [Date.now().toString()] *)
Definition Number_toString (n : Z) : string := pretty n.

(** POST /api/changelogs (lines 342-361), up to [res.json]: the response,
    and the background call suspended at its first [await]. [body] is
    [req.body] as the middleware left it: [None] when it is [undefined],
    which is what Express hands over when no body parser ran; destructuring
    it throws, and the route answers 500. *)
Definition post_changelogs (now : Z) (body : option ReqBody) (s : Server)
  : Server * Response * option Task :=
  match body with
  | None =>
      (log_error "Error starting changelog generation:"
         (TypeError "Cannot destructure property 'startDate' of 'req.body' as it is undefined.") s,
       RespError 500 "Failed to start changelog generation", None)
  | Some b =>
      let jobId := Number_toString now in
      let s1 := set_job jobId processing_job s in
      let '(s2, m) :=
        run_sync now
          (generateChangelogAsync W jobId (body_startDate b) (body_endDate b)
             (body_version b) (body_title b)) s1 in
      (s2, RespId jobId, Some {| task_job := jobId; task_body := m |})
  end.

(** GET /api/changelogs/status/:id (lines 364-373). A stored job is an
    object, hence truthy. *)
Definition get_status (jobId : string) (s : Server) : Response :=
  match changelogJobs s !! jobId with
  | None => RespError 404 "Job not found"
  | Some job => RespJob job
  end.

Record CommitsQuery := {
  q_page : option string;
  q_pageSize : option string;
  q_startDate : option string;
  q_endDate : option string
}.

(** [parseInt(v)], [NaN] on [undefined]. *)
Definition parse_int (v : option string) : option Z :=
  match v with
  | Some s => parseInt W s
  | None => None
  end.

(** [v ? new Date(v).toISOString() : undefined] *)
Definition iso_or_undefined (v : option string) : Exn + option string :=
  if truthy v then
    match toISOString W (new_Date W v) with
    | inl e => inl e
    | inr s => inr (Some s)
    end
  else inr None.

Definition item_of (c : ApiCommit) : CommitItem :=
  {| ci_sha := api_sha c; ci_message := api_message c;
     ci_author := api_author_name c; ci_date := api_author_date c;
     ci_link := commit_link W (api_sha c) |}.

(** GET /api/commits (lines 242-292). [page], [pageSize] and
    [totalCommits] are the integers [parseInt] read, or the defaults; what
    is computed from them is computed in doubles. *)
Definition get_commits (q : CommitsQuery) : Async Response :=
  try_catch
    (let page := num_or (parse_int (q_page q)) 0 in
     let pageSize := num_or (parse_int (q_pageSize q)) 10 in
     since ← lift (iso_or_undefined (q_startDate q));
     until ← lift (iso_or_undefined (q_endDate q));
     totalResponse ← await_io (ListCommits since until (Some 1) (Some 1));
     let totalCommits :=
       num_or (parse_int (headers_link totalResponse ≫= match_last_page W)) 1 in
     since' ← lift (iso_or_undefined (q_startDate q));
     until' ← lift (iso_or_undefined (q_endDate q));
     response ← await_io (ListCommits since' until' (Some pageSize)
                            (Some (num_add page 1)));
     let totalPages := Math_ceil (num_div totalCommits pageSize) in
     let currentItemCount := num_mul (num_add page 1) pageSize in
     Ret (RespCommits (map item_of (data response)) totalPages
            (bool_decide (currentItemCount < totalCommits))))
    (fun error =>
       Do (ConsoleError "Error handling commits request:" error)
          (fun _ => Ret (RespError 500 "Failed to fetch commits"))).

(** ** The event loop *)

Record Node := { server : Server; pending : list Task }.

(** What the event loop is woken by: a request, or the settling of the
    request that the [i]-th suspended background call awaits, with the
    collaborators answering as [ans] at that moment. *)
Inductive Event :=
| POST_changelogs (body : option ReqBody)
| GET_status (id : string)
| Settled (i : nat) (ans : Answers).

Definition park (jobId : string) (m : Async unit) (ts : list Task) : list Task :=
  if is_done m then ts else ts ++ [{| task_job := jobId; task_body := m |}].

(** One turn of the event loop at clock reading [now]: the event is
    handled, then the microtasks run. *)
Definition step (now : Z) (ev : Event) (n : Node) : Node * option Response :=
  match ev with
  | POST_changelogs body =>
      let '(s1, resp, spawned) := post_changelogs now body (server n) in
      match spawned with
      | None => ({| server := s1; pending := pending n |}, Some resp)
      | Some t =>
          let '(s2, m) := drain now (task_body t) s1 in
          ({| server := s2; pending := park (task_job t) m (pending n) |}, Some resp)
      end
  | GET_status id => (n, Some (get_status id (server n)))
  | Settled i ans =>
      match pending n !! i with
      | None => (n, None)
      | Some t =>
          let '(s', m) := settle ans now (task_body t) (server n) in
          ({| server := s';
              pending := if is_done m then delete i (pending n)
                         else <[i := {| task_job := task_job t; task_body := m |}]> (pending n) |},
           None)
      end
  end.

Fixpoint run (evs : list (Z * Event)) (n : Node) : Node :=
  match evs with
  | [] => n
  | (now, ev) :: rest => run rest (step now ev n).1
  end.

End EventLoop.

Definition init : Node :=
  {| server := {| changelogJobs := ∅; db := []; console := []; journal := [] |};
     pending := [] |}.

(** ** Requests as they reach the routes

    [server.js] registers one middleware, [cors] (lines 22-34). Express
    sets [req.body] in a body-parsing middleware such as [express.json()]
    and nowhere else: with none registered, [req.body] is [undefined]
    whatever the request carries. *)

Inductive Middleware := mw_cors | mw_express_json.

#[global] Instance Middleware_eq_dec : EqDecision Middleware.
Proof. solve_decision. Defined.

(** The [app.use] calls of the file, in order. *)
Definition app_use : list Middleware := [mw_cors].

(** [req.body] in a route, for a request whose JSON payload is
    [payload]. *)
Definition req_body (payload : option ReqBody) : option ReqBody :=
  if decide (mw_express_json ∈ app_use) then payload else None.

(** What wakes the process, as the network delivers it: a request that
    the origin check lets through, with its payload, or the answer of a
    collaborator. *)
Inductive Arrival :=
| Http_POST_changelogs (payload : option ReqBody)
| Http_GET_status (id : string)
| Http_answer (i : nat) (ans : Answers).

Definition arrives (a : Arrival) : Event :=
  match a with
  | Http_POST_changelogs payload => POST_changelogs (req_body payload)
  | Http_GET_status id => GET_status id
  | Http_answer i ans => Settled i ans
  end.

Definition arrivals (l : list (Z * Arrival)) : list (Z * Event) :=
  (fun x => (x.1, arrives x.2)) <$> l.

(** ** What a body may do

    [avoids se ad m]: on no path does [m] write the job table (when [se])
    or ask the store to add a document (when [ad]). *)

Definition is_set {B} (op : Eff B) : bool :=
  match op with
  | JobsSet _ _ => true
  | _ => false
  end.

Definition is_add {B} (io : IO B) : bool :=
  match io with
  | AddDoc _ => true
  | _ => false
  end.

Fixpoint avoids (se ad : bool) {A} (m : Async A) : Prop :=
  match m with
  | Ret _ | Throw _ => True
  | Tick k => avoids se ad k
  | Do op k => (se = true -> is_set op = false) /\ forall b, avoids se ad (k b)
  | Await io k => (ad = true -> is_add io = false) /\ forall r, avoids se ad (k r)
  end.

(** [sets_once id m]: on every path [m] writes the job table exactly
    once, at [id], with a job that is [completed], and ends right after. *)

Definition eff_write {B} (op : Eff B) : option (string * Job) :=
  match op with
  | JobsSet id j => Some (id, j)
  | _ => None
  end.

Definition ends {A} (m : Async A) : Prop :=
  match m with
  | Ret _ => True
  | _ => False
  end.

Fixpoint sets_once (id : string) {A} (m : Async A) : Prop :=
  match m with
  | Ret _ | Throw _ => False
  | Tick k => sets_once id k
  | Do op k =>
      match eff_write op with
      | Some (id', j) => id' = id /\ completed j = true /\ forall b, ends (k b)
      | None => forall b, sets_once id (k b)
      end
  | Await io k => forall r, sets_once id (k r)
  end.

(** ** Histories *)

(** The clock readings at which a history submitted a generation request
    with a body, and the job ids these requests were given. *)
Definition submit_time (e : Z * Event) : option Z :=
  match e.2 with
  | POST_changelogs (Some _) => Some e.1
  | _ => None
  end.

Definition submit_times (evs : list (Z * Event)) : list Z := omap submit_time evs.

Definition allocated (evs : list (Z * Event)) : list string :=
  Number_toString <$> submit_times evs.

(** Background calls of a job that have not returned, and writes of a
    completed state of a job so far. *)
Definition tasks_of (id : string) (ts : list Task) : nat :=
  length (filter (fun t => task_job t = id) ts).

Definition terminal_writes (id : string) (jl : list (string * Job)) : nat :=
  length (filter (fun w => w.1 = id /\ completed w.2 = true) jl).

(** What a turn does to a background call of job [id] that is still to
    write: it stays to write and the table is untouched, or it has ended
    with its one write. *)
Definition progress (id : string) (s s' : Server) (m' : Async unit) : Prop :=
  (sets_once id m'
   /\ changelogJobs s' = changelogJobs s /\ journal s' = journal s)
  \/ (is_done m' = true
      /\ exists j, completed j = true
           /\ changelogJobs s' = <[id := j]> (changelogJobs s)
           /\ journal s' = (journal s ++ [(id, j)])%list).

(** The state of a node after the history [evs]: every suspended call
    still owes its single write; per job id, the calls suspended plus the
    completed states written are as many as the requests that were given
    this id; the table has keys only for ids given to a request. *)
Definition consistent (evs : list (Z * Event)) (n : Node) : Prop :=
  Forall (fun t => sets_once (task_job t) (task_body t)) (pending n)
  /\ (forall id,
        (tasks_of id (pending n) + terminal_writes id (journal (server n)))%nat
        = length (filter (fun x => x = id) (allocated evs)))
  /\ (forall id, is_Some (changelogJobs (server n) !! id) -> id ∈ allocated evs).

(** ** A concrete world

    One repository with two commits, a summarizer that answers with one
    section, and a store that numbers its documents; each collaborator can
    be made to fail. Used to run the model on concrete requests. *)

Module Sample.

Definition parse_date (s : string) : option Z :=
  if decide (s = "2024-01-01") then Some 1704067200000
  else if decide (s = "2024-01-05") then Some 1704412800000
  else if decide (s = "2024-01-31") then Some 1706659200000
  else None.

Definition digit (c : ascii) : option Z :=
  let n := Z.of_nat (nat_of_ascii c) in
  if decide (48 <= n <= 57) then Some (n - 48) else None.

Fixpoint digits (acc : Z) (s : string) : option Z :=
  match s with
  | "" => Some acc
  | String c s' =>
      match digit c with
      | Some d => digits (10 * acc + d) s'
      | None => None
      end
  end.

Definition parse_int (s : string) : option Z :=
  match s with
  | "" => None
  | _ => digits 0 s
  end.

Definition last_link (n : string) : string :=
  "<https://api.github.com/repositories/1/commits?per_page=1&page=" +:+ n
    +:+ ">; rel=" +:+ dq +:+ "last" +:+ dq.

Definition last_page (link : string) : option string :=
  if decide (link = last_link "25") then Some "25"
  else if decide (link = last_link "7") then Some "7"
  else None.

Definition commits : list ApiCommit := [
  {| api_sha := "a1"; api_message := "add dark mode"; api_author_name := "ann";
     api_author_date := "2024-01-01" |};
  {| api_sha := "a2"; api_message := "fix login"; api_author_name := "bob";
     api_author_date := "2024-01-05" |}
].

Definition draft : ChangelogDraft :=
  {| changes := [
       {| category := "Features";
          items := [ {| description := "Added dark mode";
                        commitLink := "https://.../commit/abc" |} ] |} ] |}.

Definition parse_json (content : string) : Exn + ChangelogDraft :=
  if decide (content = "draft") then inr draft
  else inl (SyntaxError "Unexpected token in JSON").

Definition answers (listing : Exn + ListResponse) (chat add : Exn + string) : Answers :=
  fun (B : Type) (io : IO B) (docs : list Doc) =>
  match io in IO B return Exn + B with
  | ListCommits _ _ _ _ => listing
  | GetCommit _ =>
      inr {| stats_additions := 3; stats_deletions := 1;
             data_files := [ {| patch := Some "+x" |}; {| patch := None |} ] |}
  | ChatCreate _ => chat
  | AddDoc _ =>
      match add with
      | inr prefix => inr (prefix +:+ pretty (length docs))
      | inl e => inl e
      end
  end.

Definition world (listing : Exn + ListResponse) (chat add : Exn + string) : World :=
  {| Date_parse := parse_date;
     Date_toISOString := pretty;
     JSON_parse := parse_json;
     parseInt := parse_int;
     match_last_page := last_page;
     REPO_OWNER := "octo";
     REPO_NAME := "demo";
     answer := answers listing chat add |}.

(** Every collaborator answers. *)
Definition healthy : World :=
  world (inr {| headers_link := Some (last_link "25"); data := commits |})
        (inr "draft") (inr "doc").

(** No commit in the range. *)
Definition no_commits : World :=
  world (inr {| headers_link := None; data := [] |}) (inr "draft") (inr "doc").

(** No commit in the range, and the summarizer is down. *)
Definition no_commits_no_summary : World :=
  world (inr {| headers_link := None; data := [] |})
        (inl (Rejected "503 from the completion endpoint")) (inr "doc").

(** The commit source is down. *)
Definition source_down : World :=
  world (inl (Rejected "403 rate limit exceeded")) (inr "draft") (inr "doc").

Definition server0 : Server :=
  {| changelogJobs := ∅; db := []; console := []; journal := [] |}.

Definition january : ReqBody :=
  {| body_startDate := Some "2024-01-01"; body_endDate := Some "2024-01-31";
     body_version := Some "1.2.0"; body_title := None |}.

Definition no_dates : ReqBody :=
  {| body_startDate := None; body_endDate := None;
     body_version := None; body_title := None |}.

End Sample.

(** ** The rest of the server *)

(** *** Cross-origin requests (lines 17-34) *)

(** [process.env.FRONTEND_URL] is a string or [undefined]. *)
Definition allowedOrigins (FRONTEND_URL : option string) : list (option string) :=
  [Some "http://localhost:3000"; FRONTEND_URL].

(** [arr.indexOf(x)]: the first index holding [x], [-1] without one. *)
Fixpoint indexOf {A} `{EqDecision A} (l : list A) (x : A) : Z :=
  match l with
  | [] => -1
  | y :: rest =>
      if decide (y = x) then 0
      else let i := indexOf rest x in
           if decide (i = -1) then -1 else i + 1
  end.

Definition cors_message : string :=
  "The CORS policy for this site does not allow access from the specified Origin.".

(** The [origin] function handed to [cors]: what it passes to [callback],
    the message of the error if any, and whether the origin may call. *)
Definition cors_origin (FRONTEND_URL origin : option string) : option string * bool :=
  if negb (truthy origin) then (None, true)
  else if decide (indexOf (allowedOrigins FRONTEND_URL) origin = -1)
       then (Some cors_message, false)
       else (None, true).

(** *** The requests a body sends *)

Inductive Request :=
| Asked {B : Type} (io : IO B).

Section Requests.

Variable W : World.

(** The collaborator requests of a run of [exec], in order. *)
Fixpoint asked {A} (now : Z) (m : Async A) (s : Server) : list Request :=
  match m with
  | Ret _ | Throw _ => []
  | Tick k => asked now k s
  | Do op k => let '(s', b) := do_eff now op s in asked now (k b) s'
  | Await io k =>
      let r := answer W _ io (db s) in
      Asked io :: asked now (k r) (io_commit io r s)
  end.

(** *** GET /api/changelogs (lines 295-339) *)

Record ChangelogsQuery := {
  cq_pageSize : option string;
  cq_lastTimestamp : option string
}.

(** [query(collection(db, 'changelogs'), orderBy(..), startAfter(..)?,
    limit(..))]. *)
Record FsQuery := {
  fs_orderBy : string;
  fs_direction : string;
  fs_startAfter : option JsDate;
  fs_limit : Z
}.

Inductive ChangelogsResponse :=
| RespChangelogs (items : list Doc) (hasMore : bool) (lastTimestamp : option string)
| RespChangelogsError (code : Z) (msg : string).

Definition changelogsQuery (q : ChangelogsQuery) : FsQuery :=
  let pageSize := num_or (parse_int W (cq_pageSize q)) 10 in
  {| fs_orderBy := "startDate";
     fs_direction := "desc";
     fs_startAfter :=
       if truthy (cq_lastTimestamp q) then Some (new_Date W (cq_lastTimestamp q))
       else None;
     fs_limit := pageSize |}.

(** The route, given how the store answers the query ([getDocs], which
    also stands for a query that the store refuses to build). An item is
    [{id: doc.id, ...doc.data()}]; stored documents have no [id] field of
    their own. *)
Definition get_changelogs (getDocs : FsQuery -> Exn + list Doc) (q : ChangelogsQuery)
    (s : Server) : Server * ChangelogsResponse :=
  let pageSize := num_or (parse_int W (cq_pageSize q)) 10 in
  match getDocs (changelogsQuery q) with
  | inr changelogs =>
      let hasMore := bool_decide (Z.of_nat (length changelogs) = pageSize) in
      (s, RespChangelogs changelogs hasMore
            (match last changelogs with
             | Some doc => startDate doc.2
             | None => None
             end))
  | inl e =>
      (log_error "Error fetching changelogs:" e s,
       RespChangelogsError 500 "Failed to fetch changelogs")
  end.

End Requests.

(** *** Shapes of the job table *)

(** The two states a background call writes. *)
Definition terminal_shape (j : Job) : Prop :=
  j = error_job \/ exists cl, j = completed_job cl.

(** [sets_terminal m]: whatever [m] writes to the job table is one of the
    two. *)
Fixpoint sets_terminal {A} (m : Async A) : Prop :=
  match m with
  | Ret _ | Throw _ => True
  | Tick k => sets_terminal k
  | Do op k =>
      match eff_write op with
      | Some (_, j) => terminal_shape j
      | None => True
      end /\ forall b, sets_terminal (k b)
  | Await io k => forall r, sets_terminal (k r)
  end.

(** What holds of the table after a history, besides [consistent]: the
    suspended calls only write terminal states; an entry is the processing
    one or terminal; a terminal entry was written as such; an entry that is
    not completed has a call suspended; every id given to a request has an
    entry. *)
Definition lifecycle (evs : list (Z * Event)) (n : Node) : Prop :=
  Forall (fun t => sets_terminal (task_body t)) (pending n)
  /\ (forall id j, changelogJobs (server n) !! id = Some j ->
        j = processing_job \/ terminal_shape j)
  /\ (forall id j, changelogJobs (server n) !! id = Some j -> completed j = true ->
        (0 < terminal_writes id (journal (server n)))%nat)
  /\ (forall id j, changelogJobs (server n) !! id = Some j -> completed j = false ->
        (0 < tasks_of id (pending n))%nat)
  /\ (forall id, id ∈ allocated evs -> is_Some (changelogJobs (server n) !! id)).

(** *** Details of a commit *)

(** What the callback of [commits.map] returns for a commit whose detail
    request was answered with [d] (lines 63-73). *)
Definition detail_from (W : World) (commit : CommitSummary) (d : CommitData) : CommitDetail :=
  {| cd_message := message commit;
     cd_link := commit_link W (sha commit);
     cd_additions := stats_additions d;
     cd_deletions := stats_deletions d;
     cd_files := map (fun file => {| patch := patch file |}) (data_files d) |}.

Definition is_chat (r : Request) : bool :=
  match r with
  | Asked (ChatCreate _) => true
  | Asked _ => false
  end.

Definition is_store (r : Request) : bool :=
  match r with
  | Asked (AddDoc _) => true
  | Asked _ => false
  end.

(** *** More worlds *)

Module Cases.

(** GitHub has lost the second commit of the sample repository. *)
Definition answers_detail_down : Answers :=
  fun (B : Type) (io : IO B) (docs : list Doc) =>
    match io in IO B return Exn + B with
    | GetCommit ref =>
        if decide (ref = "a2") then inl (Rejected "404 no commit found for the ref")
        else answer Sample.healthy _ (GetCommit ref) docs
    | ListCommits since until_ per_page page =>
        answer Sample.healthy _ (ListCommits since until_ per_page page) docs
    | ChatCreate content => answer Sample.healthy _ (ChatCreate content) docs
    | AddDoc d => answer Sample.healthy _ (AddDoc d) docs
    end.

Definition detail_down : World :=
  {| Date_parse := Date_parse Sample.healthy;
     Date_toISOString := Date_toISOString Sample.healthy;
     JSON_parse := JSON_parse Sample.healthy;
     parseInt := parseInt Sample.healthy;
     match_last_page := match_last_page Sample.healthy;
     REPO_OWNER := REPO_OWNER Sample.healthy;
     REPO_NAME := REPO_NAME Sample.healthy;
     answer := answers_detail_down |}.

(** The document store rejects every write. *)
Definition store_down : World :=
  Sample.world (inr {| headers_link := Some (Sample.last_link "25"); data := Sample.commits |})
    (inr "draft") (inl (Rejected "PERMISSION_DENIED")).


(** A repository of 2^53 + 4 commits, as its [link] header says. *)
Definition vast_link : string := Sample.last_link "9007199254740996".

Definition vast : World :=
  {| Date_parse := Date_parse Sample.healthy;
     Date_toISOString := Date_toISOString Sample.healthy;
     JSON_parse := JSON_parse Sample.healthy;
     parseInt := parseInt Sample.healthy;
     match_last_page :=
       fun link => if decide (link = vast_link) then Some "9007199254740996" else None;
     REPO_OWNER := REPO_OWNER Sample.healthy;
     REPO_NAME := REPO_NAME Sample.healthy;
     answer :=
       Sample.answers (inr {| headers_link := Some vast_link; data := Sample.commits |})
         (inr "draft") (inr "doc") |}.

End Cases.

(** * Properties *)

(** ** Lines of a patch *)

Lemma no_nl_cons c s : no_nl (String c s) <-> c <> nl_char /\ no_nl s.
Proof.
  unfold no_nl. cbn [list_ascii_of_string]. rewrite not_elem_of_cons.
  split; intros [H1 H2]; split; auto.
Qed.

Lemma split_nl_line x rest :
  no_nl x -> split_nl (x +:+ nl +:+ rest) = x :: split_nl rest.
Proof.
  induction x as [|c x IH]; intros Hx.
  - reflexivity.
  - apply no_nl_cons in Hx as [Hc Hx].
    change (String c x +:+ nl +:+ rest) with (String c (x +:+ nl +:+ rest)).
    cbn [split_nl]. rewrite decide_False by done. by rewrite IH.
Qed.

Lemma split_nl_single x : no_nl x -> split_nl x = [x].
Proof.
  induction x as [|c x IH]; intros Hx; [done|].
  apply no_nl_cons in Hx as [Hc Hx]. cbn [split_nl].
  rewrite decide_False by done. by rewrite IH.
Qed.

Lemma split_nl_join (lines : list string) :
  lines <> [] -> Forall no_nl lines -> split_nl (join nl lines) = lines.
Proof.
  induction lines as [|x rest IH]; [done|]. intros _ Hall.
  apply Forall_cons in Hall as [Hx Hrest].
  destruct rest as [|y rest'].
  - cbn. by apply split_nl_single.
  - change (join nl (x :: y :: rest')) with (x +:+ nl +:+ join nl (y :: rest')).
    rewrite split_nl_line by done. by rewrite IH.
Qed.

(** Every patch is the join of its lines. *)
Lemma split_nl_lines (p : string) :
  Forall no_nl (split_nl p) /\ join nl (split_nl p) = p.
Proof.
  induction p as [|c p [IHl IHj]]; cbn [split_nl].
  - split; [|done]. repeat constructor. unfold no_nl. cbn. apply not_elem_of_nil.
  - case_decide as Hc.
    + subst c. split.
      * constructor; [|done]. unfold no_nl. cbn. apply not_elem_of_nil.
      * destruct (split_nl p) as [|l ls] eqn:Hs; cbn in *; by subst.
    + destruct (split_nl p) as [|l ls] eqn:Hs.
      * cbn in IHj. subst p. split; [|done].
        repeat constructor. apply no_nl_cons. split; [done|].
        unfold no_nl. cbn. apply not_elem_of_nil.
      * apply Forall_cons in IHl as [Hl Hls]. split.
        -- constructor; [|done]. by apply no_nl_cons.
        -- subst p. by destruct ls.
Qed.

Lemma take_min_length {A} (n : nat) (l : list A) :
  take (length l `min` n) l = take n l.
Proof.
  destruct (decide (length l <= n)%nat) as [Hle|Hgt].
  - rewrite Nat.min_l by done. rewrite firstn_all. symmetry. by apply take_ge.
  - rewrite Nat.min_r by lia. done.
Qed.

Lemma join_nl_falsy (lines : list string) :
  join nl lines = "" -> lines = [] \/ lines = [""].
Proof.
  destruct lines as [|x [|y rest]]; cbn; intros H; auto.
  - subst. by right.
  - destruct x; discriminate.
Qed.

Lemma string_app_nil_r (s : string) : s +:+ "" = s.
Proof.
  induction s as [|c s IH]; [done|].
  change (String c s +:+ "") with (String c (s +:+ "")). by rewrite IH.
Qed.

Lemma string_app_assoc (a b c : string) : (a +:+ b) +:+ c = a +:+ b +:+ c.
Proof.
  induction a as [|x a IH]; [done|].
  change ((String x a +:+ b) +:+ c) with (String x ((a +:+ b) +:+ c)).
  change (String x a +:+ b +:+ c) with (String x (a +:+ b +:+ c)). by rewrite IH.
Qed.

Lemma includes_refl (s : string) : includes s s.
Proof. exists "", "". by rewrite string_app_nil_r. Qed.

Lemma includes_app_l (a s t : string) : includes s t -> includes (a +:+ s) t.
Proof. intros (pre & post & ->). exists (a +:+ pre), post. by rewrite string_app_assoc. Qed.

Lemma includes_app_r (b s t : string) : includes s t -> includes (s +:+ b) t.
Proof.
  intros (pre & post & ->). exists pre, (post +:+ b). by rewrite !string_app_assoc.
Qed.

Lemma includes_trans (s t u : string) : includes s t -> includes t u -> includes s u.
Proof.
  intros (pre & post & ->) Htu. by apply includes_app_l, includes_app_r.
Qed.

Lemma includes_join sep (l : list string) x : x ∈ l -> includes (join sep l) x.
Proof.
  induction l as [|a l IH]; [by intros ?%elem_of_nil|].
  intros [->|Hx]%elem_of_cons.
  - destruct l as [|b l]; [apply includes_refl|].
    change (join sep (a :: b :: l)) with (a +:+ sep +:+ join sep (b :: l)).
    apply includes_app_r, includes_refl.
  - destruct l as [|b l]; [by apply elem_of_nil in Hx|].
    change (join sep (a :: b :: l)) with (a +:+ sep +:+ join sep (b :: l)).
    by apply includes_app_l, includes_app_l, IH.
Qed.

(** The rendering of every file of every commit is part of the prompt. *)
Lemma prompt_includes_file (cs : list CommitDetail) c f :
  c ∈ cs -> f ∈ cd_files c -> includes (prompt cs) (renderFile f).
Proof.
  intros Hc Hf. unfold prompt, commitDescriptions.
  do 2 apply includes_app_l.
  apply includes_trans with (renderCommit c).
  - apply includes_join, list_elem_of_fmap. by exists c.
  - unfold renderCommit. do 13 apply includes_app_l. apply includes_app_r.
    apply includes_join, list_elem_of_fmap. by exists f.
Qed.

(** C5: a patch made of the [N] lines [lines] is previewed as its first
    [min N 5] lines, joined as they were, followed by the marker
    ["\n..."] exactly when [N > 5]; a file without a patch has the empty
    preview. The rendering of a file is the line [Preview of changes:]
    followed by a line with its preview and nothing else of the patch, and
    the prompt includes the rendering of every file of every commit. *)
Theorem patch_preview_lines (lines : list string) :
  Forall no_nl lines ->
  let N := length lines in
  let shown := take (N `min` 5) lines in
  let preview :=
    join nl shown +:+ (if decide (5 < N)%nat then nl +:+ "..." else "") in
  let rendering (body : string) :=
    nl +:+ "                    Preview of changes:" +:+ nl
       +:+ "                    " +:+ body +:+ nl +:+ "                    " in
  length shown = (N `min` 5)%nat
  /\ patchPreview (Some (join nl lines)) = preview
  /\ patchPreview None = ""
  /\ renderFile {| patch := Some (join nl lines) |} = rendering preview
  /\ renderFile {| patch := None |} = rendering ""
  /\ forall (cs : list CommitDetail) (c : CommitDetail), c ∈ cs ->
       ({| patch := Some (join nl lines) |} ∈ cd_files c ->
        includes (prompt cs) (rendering preview))
       /\ ({| patch := None |} ∈ cd_files c ->
           includes (prompt cs) (rendering "")).
Proof.
  intros Hall N shown preview rendering.
  assert (patchPreview (Some (join nl lines)) = preview) as Hpreview.
  { subst preview shown N. rewrite take_min_length.
    destruct (join nl lines) as [|c s] eqn:Hj.
    - apply join_nl_falsy in Hj as [-> | ->]; reflexivity.
    - assert (lines <> []) as Hne by (intros ->; discriminate).
      unfold patchPreview, truthy, slice0. rewrite <- Hj.
      by rewrite split_nl_join. }
  assert (renderFile {| patch := Some (join nl lines) |} = rendering preview) as Hfile.
  { unfold renderFile. cbn [patch]. by rewrite Hpreview. }
  split_and!; try done.
  - subst shown N. rewrite length_take. lia.
  - intros cs c Hc. split; intros Hf.
    + rewrite <- Hfile. by apply prompt_includes_file with c.
    + change (rendering "") with (renderFile {| patch := None |}).
      by apply prompt_includes_file with c.
Qed.

(** The theorem at a patch of seven lines. *)
Lemma patch_preview_lines_witness :
  renderFile {| patch := Some (join nl ["a"; "b"; "c"; "d"; "e"; "f"; "g"]) |}
  = nl +:+ "                    Preview of changes:" +:+ nl
       +:+ "                    "
       +:+ (join nl ["a"; "b"; "c"; "d"; "e"] +:+ nl +:+ "...")
       +:+ nl +:+ "                    ".
Proof.
  refine (proj1 (proj2 (proj2 (proj2
            (patch_preview_lines ["a"; "b"; "c"; "d"; "e"; "f"; "g"] _))))).
  apply (bool_decide_unpack _). vm_compute. reflexivity.
Defined.

Example prompt_of_sample_file :
  let f := {| patch := Some (join nl ["a"; "b"; "c"; "d"; "e"; "f"; "g"]) |} in
  let c := {| cd_message := "fix login"; cd_link := "https://github.com/octo/demo/commit/a2";
              cd_additions := 3; cd_deletions := 1; cd_files := [f; {| patch := None |}] |} in
  fileChangeSummary c
  = join nl [
      nl +:+ "                    Preview of changes:" +:+ nl
         +:+ "                    " +:+ join nl ["a"; "b"; "c"; "d"; "e"; "..."]
         +:+ nl +:+ "                    ";
      nl +:+ "                    Preview of changes:" +:+ nl
         +:+ "                    " +:+ nl +:+ "                    " ].
Proof. vm_compute. reflexivity. Qed.

(** ** Equations of [exec] *)

Section Exec.

Variable W : World.

Lemma exec_bind {A B} now (m : Async A) (f : A -> Async B) s :
  exec W now (bind m f) s =
    match exec W now m s with
    | (s', inr a) => exec W now (f a) s'
    | (s', inl e) => (s', inl e)
    end.
Proof.
  revert s. induction m as [a|e|k IH|C op k IH|C io k IH]; intros s; cbn; auto.
  destruct (do_eff now op s) as [s' b]. apply IH.
Qed.

Lemma exec_mbind {A B} now (m : Async A) (f : A -> Async B) s :
  exec W now (m ≫= f) s =
    match exec W now m s with
    | (s', inr a) => exec W now (f a) s'
    | (s', inl e) => (s', inl e)
    end.
Proof. apply exec_bind. Qed.

Lemma exec_try_catch {A} now (m : Async A) (h : Exn -> Async A) s :
  exec W now (try_catch m h) s =
    match exec W now m s with
    | (s', inr a) => (s', inr a)
    | (s', inl e) => exec W now (h e) s'
    end.
Proof.
  revert s. induction m as [a|e|k IH|C op k IH|C io k IH]; intros s; cbn; auto.
  destruct (do_eff now op s) as [s' b]. apply IH.
Qed.

Lemma exec_await {A} now (m : Async A) s :
  exec W now (await m) s = exec W now m s.
Proof.
  revert s. induction m as [a|e|k IH|C op k IH|C io k IH]; intros s; cbn; auto.
  destruct (do_eff now op s) as [s' b]. apply IH.
Qed.

Lemma exec_await_io {B} now (io : IO B) s :
  exec W now (await_io io) s =
    (io_commit io (answer W _ io (db s)) s, answer W _ io (db s)).
Proof. cbn. by destruct (answer W B io (db s)). Qed.

Lemma exec_lift {A} now (r : Exn + A) s : exec W now (lift r) s = (s, r).
Proof. by destruct r. Qed.

(** ** Record assembly *)

Lemma mostRecentCommit_cons c commits :
  exists latest, mostRecentCommit W (c :: commits) = Some latest.
Proof.
  unfold mostRecentCommit. cbn [fold_left later_of].
  generalize c. induction commits as [|x l IH]; intros a; cbn [fold_left]; [eauto|].
  unfold later_of at 2. destruct date_gt; apply IH.
Qed.

Lemma storeChangelog_exec changelog commits latest version title startDate endDate now s :
  mostRecentCommit W commits = Some latest ->
  let d := changelogData changelog latest version title startDate endDate in
  exec W now (storeChangelog W changelog commits version title startDate endDate) s =
    match answer W _ (AddDoc d) (db s) with
    | inr id => (add_doc id d s, inr id)
    | inl e => (log_error "Error storing changelog:" e s, inl e)
    end.
Proof.
  intros Hm d. unfold storeChangelog. rewrite Hm, exec_try_catch, exec_await_io.
  fold d. by destruct (answer W string (AddDoc d) (db s)).
Qed.

Lemma storeChangelog_empty changelog version title startDate endDate now s :
  exec W now (storeChangelog W changelog [] version title startDate endDate) s =
    (log_error "Error storing changelog:"
       (TypeError "Cannot read properties of null (reading 'date')") s,
     inl (TypeError "Cannot read properties of null (reading 'date')")).
Proof. reflexivity. Qed.

Lemma fold_later_of l : forall acc tacc,
  Date_parse W (date acc) = Some tacc ->
  Forall (fun c => is_Some (Date_parse W (date c))) l ->
  exists latest t,
    fold_left (later_of W) l (Some acc) = Some latest
    /\ Date_parse W (date latest) = Some t
    /\ tacc <= t
    /\ (forall c u, c ∈ l -> Date_parse W (date c) = Some u -> u <= t)
    /\ ((latest = acc /\ t = tacc)
        \/ exists i, l !! i = Some latest /\ tacc < t
             /\ forall j c u, (j < i)%nat -> l !! j = Some c ->
                  Date_parse W (date c) = Some u -> u < t).
Proof.
  induction l as [|c l IH]; intros acc tacc Hacc Hall.
  - exists acc, tacc. split_and!; auto; [lia | intros ? ? H; by apply elem_of_nil in H].
  - apply Forall_cons in Hall as [[tc Hc] Hall].
    cbn [fold_left]. unfold later_of at 2. cbn [new_Date]. rewrite Hc, Hacc.
    cbn [date_gt]. case_bool_decide as Hlt.
    + destruct (IH c tc Hc Hall) as (latest & t & Hf & Ht & Hle & Hmax & Hfirst).
      exists latest, t. split_and!; auto; [lia | |].
      * intros c' u [->|Hin]%elem_of_cons Hu; [|eauto]. rewrite Hc in Hu. simplify_eq. lia.
      * right. destruct Hfirst as [[-> ->] | (i & Hi & Hlt' & Hbefore)].
        -- exists 0%nat. split_and!; auto. intros; lia.
        -- exists (S i). split_and!; auto; [lia|].
           intros [|j] c' u Hj Hl Hu; cbn in Hl.
           ++ simplify_eq. lia.
           ++ eapply Hbefore; eauto. lia.
    + destruct (IH acc tacc Hacc Hall) as (latest & t & Hf & Ht & Hle & Hmax & Hfirst).
      exists latest, t. split_and!; auto.
      * intros c' u [->|Hin]%elem_of_cons Hu; [|eauto]. rewrite Hc in Hu. simplify_eq. lia.
      * destruct Hfirst as [[-> ->] | (i & Hi & Hlt' & Hbefore)]; [by left|right].
        exists (S i). split_and!; auto.
        intros [|j] c' u Hj Hl Hu; cbn in Hl.
        -- simplify_eq. lia.
        -- eapply Hbefore; eauto. lia.
Qed.

End Exec.

Create Rewrite HintDb exec.
#[local] Hint Rewrite @exec_mbind @exec_bind @exec_try_catch @exec_await
  @exec_await_io @exec_lift : exec.

(** C1: for a non-empty commit set whose dates are timestamps, the
    document that [storeChangelog] hands to the store carries the [date] of
    a commit [latest] of the set whose time is the maximum of the set and
    strictly later than the time of every commit before it; that document
    is what a successful [addDoc] persists. *)
Theorem most_recent_commit_is_latest (W : World) (commits : list CommitSummary) :
  commits <> [] ->
  Forall (fun c => is_Some (Date_parse W (date c))) commits ->
  exists (i : nat) (latest : CommitSummary) (t : Z),
    commits !! i = Some latest
    /\ Date_parse W (date latest) = Some t
    /\ (forall c u, c ∈ commits -> Date_parse W (date c) = Some u -> u <= t)
    /\ (forall j c u, (j < i)%nat -> commits !! j = Some c ->
          Date_parse W (date c) = Some u -> u < t)
    /\ forall changelog version title startDate endDate now s,
         exists d : ChangelogData,
           timestampOfMostRecentCommit d = date latest
           /\ exec W now
                (storeChangelog W changelog commits version title startDate endDate) s
              = match answer W _ (AddDoc d) (db s) with
                | inr id => (add_doc id d s, inr id)
                | inl e => (log_error "Error storing changelog:" e s, inl e)
                end.
Proof.
  intros Hne Hall. destruct commits as [|a l]; [done|].
  apply Forall_cons in Hall as [[ta Ha] Hall].
  destruct (fold_later_of W l a ta Ha Hall)
    as (latest & t & Hf & Ht & Hle & Hmax & Hfirst).
  assert (mostRecentCommit W (a :: l) = Some latest) as Hm by exact Hf.
  assert (forall c u, c ∈ a :: l -> Date_parse W (date c) = Some u -> u <= t) as Hmax'.
  { intros c u [->|Hin]%elem_of_cons Hu; [|eauto]. rewrite Ha in Hu. simplify_eq. lia. }
  assert (forall changelog version title startDate endDate now s,
    exists d : ChangelogData,
      timestampOfMostRecentCommit d = date latest
      /\ exec W now
           (storeChangelog W changelog (a :: l) version title startDate endDate) s
         = match answer W _ (AddDoc d) (db s) with
           | inr id => (add_doc id d s, inr id)
           | inl e => (log_error "Error storing changelog:" e s, inl e)
           end) as Hstore.
  { intros. eexists. split; [|by apply storeChangelog_exec]. reflexivity. }
  destruct Hfirst as [[-> ->] | (i & Hi & Hlt & Hbefore)].
  - exists 0%nat, a, ta. split_and!; auto. intros; lia.
  - exists (S i), latest, t. split_and!; auto.
    intros [|j] c u Hj Hl Hu; cbn in Hl.
    + simplify_eq. lia.
    + eapply Hbefore; eauto. lia.
Qed.

(** The theorem at the two commits of the sample repository. *)
Lemma most_recent_commit_is_latest_witness :
  exists (i : nat) (latest : CommitSummary) (t : Z),
    map (summary_of) Sample.commits !! i = Some latest
    /\ Date_parse Sample.healthy (date latest) = Some t
    /\ (forall c u, c ∈ map summary_of Sample.commits ->
          Date_parse Sample.healthy (date c) = Some u -> u <= t)
    /\ (forall j c u, (j < i)%nat -> map summary_of Sample.commits !! j = Some c ->
          Date_parse Sample.healthy (date c) = Some u -> u < t)
    /\ forall changelog version title startDate endDate now s,
         exists d : ChangelogData,
           timestampOfMostRecentCommit d = date latest
           /\ exec Sample.healthy now
                (storeChangelog Sample.healthy changelog (map summary_of Sample.commits)
                   version title startDate endDate) s
              = match answer Sample.healthy _ (AddDoc d) (db s) with
                | inr id => (add_doc id d s, inr id)
                | inl e => (log_error "Error storing changelog:" e s, inl e)
                end.
Proof.
  apply (most_recent_commit_is_latest Sample.healthy (map summary_of Sample.commits)).
  - discriminate.
  - apply (bool_decide_unpack _). vm_compute. reflexivity.
Defined.

(** The scenario of the specification: the later of the two dates is
    stored. *)
Example most_recent_of_sample :
  (exec Sample.healthy 0
     (storeChangelog Sample.healthy Sample.draft (map summary_of Sample.commits)
        None None None None) Sample.server0).1.(db)
  = [("doc0",
      {| timestampOfMostRecentCommit := "2024-01-05"; version := None; title := None;
         startDate := None; endDate := None;
         sections := [ {| heading := "Features";
                          bulletPoints := [ {| bulletPointDetails := "Added dark mode";
                                               linkToRelevantCommit := "https://.../commit/abc" |} ] |} ] |})].
Proof. vm_compute. reflexivity. Qed.

(** ** Sections of the persisted record *)

Lemma section_of_mirror (sec : DraftSection) :
  heading (section_of sec) = category sec
  /\ length (bulletPoints (section_of sec)) = length (items sec)
  /\ forall j item, items sec !! j = Some item ->
       exists bp, bulletPoints (section_of sec) !! j = Some bp
         /\ bulletPointDetails bp = description item
         /\ linkToRelevantCommit bp = commitLink item.
Proof.
  split_and!; [done | by cbn; rewrite length_map |].
  intros j item Hj. cbn. rewrite list_lookup_fmap, Hj. eauto.
Qed.

Lemma storeChangelog_appends (W : World) changelog commits version title
    startDate endDate now s s' id :
  exec W now (storeChangelog W changelog commits version title startDate endDate) s
    = (s', inr id) ->
  exists latest,
    mostRecentCommit W commits = Some latest
    /\ db s' = db s ++ [(id, changelogData changelog latest version title startDate endDate)].
Proof.
  intros Hexec. destruct commits as [|c l].
  - rewrite storeChangelog_empty in Hexec. discriminate.
  - destruct (mostRecentCommit_cons W c l) as [latest Hm].
    rewrite (storeChangelog_exec W _ _ latest) in Hexec by done.
    destruct (answer W string _ (db s)) as [e|id'] eqn:Hans; [discriminate|].
    injection Hexec as <- <-. eauto.
Qed.

(** C6: whenever [storeChangelog] persists a record for a draft, the
    record has one section per section of the draft, in the same order: the
    heading is the category, and the bullet points are the items in order,
    details from the description and link from the commit link. *)
Theorem sections_mirror_draft (W : World) changelog commits version title
    startDate endDate now s s' id :
  exec W now (storeChangelog W changelog commits version title startDate endDate) s
    = (s', inr id) ->
  exists d : ChangelogData,
    db s' = (db s ++ [(id, d)])%list
    /\ length (sections d) = length (changes changelog)
    /\ forall i sec, changes changelog !! i = Some sec ->
         exists psec, sections d !! i = Some psec
           /\ heading psec = category sec
           /\ length (bulletPoints psec) = length (items sec)
           /\ forall j item, items sec !! j = Some item ->
                exists bp, bulletPoints psec !! j = Some bp
                  /\ bulletPointDetails bp = description item
                  /\ linkToRelevantCommit bp = commitLink item.
Proof.
  intros Hexec. destruct commits as [|c l].
  - rewrite storeChangelog_empty in Hexec. discriminate.
  - destruct (mostRecentCommit_cons W c l) as [latest Hm].
    rewrite (storeChangelog_exec W _ _ latest) in Hexec by done.
    set (d := changelogData changelog latest version title startDate endDate) in *.
    destruct (answer W string (AddDoc d) (db s)) as [e|id'] eqn:Hans; [discriminate|].
    injection Hexec as <- <-. exists d. split_and!.
    + reflexivity.
    + cbn. by rewrite length_map.
    + intros i sec Hi. exists (section_of sec). split.
      * cbn. by rewrite list_lookup_fmap, Hi.
      * apply section_of_mirror.
Qed.

(** The theorem at the draft of the specification's scenario. *)
Lemma sections_mirror_draft_witness :
  exists d : ChangelogData,
    db (exec Sample.healthy 0
          (storeChangelog Sample.healthy Sample.draft
             (map summary_of Sample.commits) None None None None)
          Sample.server0).1
      = (db Sample.server0 ++ [("doc0", d)])%list
    /\ length (sections d) = length (changes Sample.draft)
    /\ forall i sec, changes Sample.draft !! i = Some sec ->
         exists psec, sections d !! i = Some psec
           /\ heading psec = category sec
           /\ length (bulletPoints psec) = length (items sec)
           /\ forall j item, items sec !! j = Some item ->
                exists bp, bulletPoints psec !! j = Some bp
                  /\ bulletPointDetails bp = description item
                  /\ linkToRelevantCommit bp = commitLink item.
Proof.
  apply (sections_mirror_draft Sample.healthy Sample.draft
           (map summary_of Sample.commits) None None None None 0 Sample.server0).
  vm_compute. reflexivity.
Defined.

(** ** Doubles *)

Lemma nearest_even_spec (num den : Z) :
  0 <= num -> 0 < den ->
  0 <= nearest_even num den /\ 2 * Z.abs (nearest_even num den * den - num) <= den.
Proof.
  intros Hn Hd. unfold nearest_even.
  pose proof (Z.div_mod num den ltac:(lia)) as Hdm.
  pose proof (Z.mod_pos_bound num den Hd) as Hr.
  pose proof (Z.div_pos num den Hn Hd) as Hq.
  repeat case_decide; try destruct (Z.even (num / den)); nia.
Qed.

Lemma div_lt_iff (n d q : Z) : 0 < d -> n / d < q <-> n < d * q.
Proof.
  intros Hd. pose proof (Z.div_mod n d ltac:(lia)) as Hdm.
  pose proof (Z.mod_pos_bound n d Hd) as Hr. split; nia.
Qed.

(** The exponent chosen leaves 53 bits before the binary point. *)
Lemma exponent_spec (a b : Z) :
  0 < a -> 0 < b ->
  let '(n, d) := scaled a b (exponent a b) in
  0 < d /\ 2 ^ 52 * d <= n < 2 ^ 53 * d.
Proof.
  intros Ha Hb. unfold exponent.
  destruct (Z.log2_spec a Ha) as [Ha1 Ha2].
  destruct (Z.log2_spec b Hb) as [Hb1 Hb2].
  pose proof (Z.log2_nonneg a) as Hla. pose proof (Z.log2_nonneg b) as Hlb.
  rewrite Z.pow_succ_r in Ha2, Hb2 by done.
  set (la := Z.log2 a) in *. set (lb := Z.log2 b) in *.
  set (e0 := la - lb - 53).
  assert (0 < 2 ^ lb) as HB by (apply Z.pow_pos_nonneg; lia).
  destruct (scaled a b e0) as [n0 d0] eqn:Hs0.
  unfold scaled in Hs0.
  destruct (decide (0 <= e0)) as [He0|He0]; injection Hs0 as <- <-.
  - assert (2 ^ la = 2 ^ lb * 2 ^ e0 * 2 ^ 53) as HA.
    { rewrite <- !Z.pow_add_r by lia. f_equal. lia. }
    assert (0 < 2 ^ e0) as HP by (apply Z.pow_pos_nonneg; lia).
    assert (2 ^ (e0 + 1) = 2 * 2 ^ e0) as HP' by (rewrite Z.pow_add_r by lia; lia).
    case_decide as Hlt; unfold scaled.
    + rewrite decide_True by done.
      split; [nia|]. split; [nia|].
      apply div_lt_iff in Hlt; nia.
    + rewrite decide_True by lia. rewrite HP'.
      assert (2 ^ 53 * (b * 2 ^ e0) <= a) as Hge.
      { rewrite div_lt_iff in Hlt by nia. nia. }
      split; [nia|]. split; nia.
  - assert (2 ^ la * 2 ^ (- e0) = 2 ^ lb * 2 ^ 53) as HA.
    { rewrite <- !Z.pow_add_r by lia. f_equal. lia. }
    assert (0 < 2 ^ (- e0)) as HQ by (apply Z.pow_pos_nonneg; lia).
    case_decide as Hlt; unfold scaled.
    + rewrite decide_False by done.
      split; [lia|]. split; [nia|].
      apply div_lt_iff in Hlt; nia.
    + assert (2 ^ 53 * b <= a * 2 ^ (- e0)) as Hge.
      { rewrite div_lt_iff in Hlt by nia. nia. }
      assert (2 ^ (- e0) = 2 * 2 ^ (- (e0 + 1))) as HQ'.
      { replace (- e0) with (- (e0 + 1) + 1) at 1 by lia.
        rewrite Z.pow_add_r by lia. lia. }
      case_decide as He1.
      * assert (e0 + 1 = 0) as Hz by lia. rewrite Hz in *.
        change (2 ^ (- 0)) with 1 in *. change (2 ^ 0) with 1 in *.
        split; [lia|]. split; nia.
      * split; [lia|]. split; nia.
Qed.

(** An integer up to 2^53 in magnitude is a double. *)
Lemma round_int_exact (n : Z) : Z.abs n <= 2 ^ 53 -> round_int n = n.
Proof. intros Hn. unfold round_int. by rewrite decide_True. Qed.


(** For a numerator below 2^53 in magnitude, the ceiling of the double
    quotient is the ceiling of the quotient: the quotient is at least
    [1 / b] away from the integer below it, more than the rounding moves
    it. *)
Lemma Math_ceil_num_div (a b : Z) :
  Z.abs a < 2 ^ 53 -> 0 < b -> Math_ceil (num_div a b) = - ((- a) / b).
Proof.
  intros Ha Hb. unfold num_div, round_ratio.
  case_decide as Hz.
  { assert (a = 0) as -> by lia. cbn. rewrite Z.div_0_l by lia. done. }
  assert (0 < Z.abs a) as Ha' by lia.
  replace (Z.abs b) with b by lia.
  pose proof (exponent_spec (Z.abs a) b Ha' Hb) as Hexp.
  set (e := exponent (Z.abs a) b) in *.
  destruct (scaled (Z.abs a) b e) as [n d] eqn:Hs.
  destruct Hexp as (Hd & Hlo & Hhi).
  destruct (nearest_even_spec n d ltac:(nia) Hd) as [Hm0 Hm].
  set (m := nearest_even n d) in *.
  assert (e <= 0) as He.
  { destruct (decide (e <= 0)) as [|Hpos]; [done|exfalso].
    unfold scaled in Hs. rewrite decide_True in Hs by lia.
    injection Hs as <- <-.
    assert (2 ^ e = 2 * 2 ^ (e - 1)) as Hp.
    { replace e with (e - 1 + 1) at 1 by lia. rewrite Z.pow_add_r by lia. lia. }
    assert (0 < 2 ^ (e - 1)) by (apply Z.pow_pos_nonneg; lia).
    nia. }
  assert (0 < 2 ^ (- e)) as HD by (apply Z.pow_pos_nonneg; lia).
  assert (n = Z.abs a * 2 ^ (- e) /\ d = b) as [-> ->].
  { unfold scaled in Hs. case_decide; injection Hs as <- <-; [|done].
    assert (e = 0) as -> by lia. cbn. lia. }
  assert (Math_ceil (Z.sgn a * Z.sgn b * m, e) = - ((- (Z.sgn a * m)) / 2 ^ (- e))) as ->.
  { unfold Math_ceil. replace (Z.sgn b) with 1 by lia. rewrite Z.mul_1_r.
    case_decide; [|done]. assert (e = 0) as -> by lia. cbn.
    rewrite Z.div_1_r. lia. }
  set (D := 2 ^ (- e)) in *.
  assert (b < 2 * D) as HbD by nia.
  f_equal. symmetry.
  pose proof (Z.div_mod (- a) b ltac:(lia)) as Hdm.
  pose proof (Z.mod_pos_bound (- a) b Hb) as Hr.
  destruct (decide (0 < a)) as [Hpos|Hneg].
  - replace (Z.sgn a) with 1 by lia. replace (Z.abs a) with a in * by lia.
    apply Z.div_unique with (r := - (1 * m) - D * ((- a) / b)); nia.
  - replace (Z.sgn a) with (-1) by lia. replace (Z.abs a) with (- a) in * by lia.
    apply Z.div_unique with (r := - (-1 * m) - D * ((- a) / b)); nia.
Qed.

Lemma ceiling_spec (a b : Z) :
  0 < b -> (- ((- a) / b) - 1) * b < a <= - ((- a) / b) * b.
Proof.
  intros Hb.
  pose proof (Z.div_mod (- a) b ltac:(lia)) as Hdm.
  pose proof (Z.mod_pos_bound (- a) b Hb) as Hr.
  nia.
Qed.

(** ** Paging of the commits listing *)

(** C8: for a page [>= 0] and a page size [> 0], with
    [(page + 1) * pageSize] and [totalCommits] below 2^53 in magnitude, a
    listing that reaches its response reports as [totalPages] the ceiling
    of [totalCommits / pageSize], that is the integer [n] with
    [(n - 1) * pageSize < totalCommits <= n * pageSize], and reports
    [hasMore] exactly when [(page + 1) * pageSize < totalCommits], where
    [totalCommits] is read off the probe's [link] header (1 without it). *)
Theorem commits_listing_paging (W : World) (q : CommitsQuery) now s
    (since until : option string) (probe listing : ListResponse) :
  let page := num_or (parse_int W (q_page q)) 0 in
  let pageSize := num_or (parse_int W (q_pageSize q)) 10 in
  let totalCommits :=
    num_or (parse_int W (headers_link probe ≫= match_last_page W)) 1 in
  0 <= page ->
  0 < pageSize ->
  (page + 1) * pageSize < 2 ^ 53 ->
  Z.abs totalCommits < 2 ^ 53 ->
  iso_or_undefined W (q_startDate q) = inr since ->
  iso_or_undefined W (q_endDate q) = inr until ->
  answer W _ (ListCommits since until (Some 1) (Some 1)) (db s) = inr probe ->
  answer W _ (ListCommits since until (Some pageSize) (Some (page + 1))) (db s)
    = inr listing ->
  exists totalPages hasMore,
    exec W now (get_commits W q) s
      = (s, inr (RespCommits (map (item_of W) (data listing)) totalPages hasMore))
    /\ (totalPages - 1) * pageSize < totalCommits <= totalPages * pageSize
    /\ (hasMore = true <-> (page + 1) * pageSize < totalCommits).
Proof.
  intros page pageSize totalCommits Hpage Hsize Hprod Htotal
    Hsince Huntil Hprobe Hlisting.
  exists (- ((- totalCommits) / pageSize)),
         (bool_decide ((page + 1) * pageSize < totalCommits)).
  split; [|split].
  - unfold get_commits. rewrite Hsince, Huntil. autorewrite with exec.
    rewrite Hprobe. cbn [io_commit]. autorewrite with exec.
    fold page pageSize totalCommits.
    assert (num_add page 1 = page + 1) as -> by (apply round_int_exact; nia).
    assert (num_mul (page + 1) pageSize = (page + 1) * pageSize) as ->
      by (apply round_int_exact; nia).
    rewrite Math_ceil_num_div by done.
    rewrite Hlisting. reflexivity.
  - by apply ceiling_spec.
  - apply bool_decide_eq_true.
Qed.

(** The theorem at [?page=2&pageSize=10] on the sample repository, whose
    probe announces 25 commits: three pages, and no more after the third. *)
Lemma commits_listing_paging_witness :
  exists totalPages hasMore,
    exec Sample.healthy 0
      (get_commits Sample.healthy
         {| q_page := Some "2"; q_pageSize := Some "10";
            q_startDate := None; q_endDate := None |}) Sample.server0
      = (Sample.server0,
         inr (RespCommits (map (item_of Sample.healthy) Sample.commits) totalPages hasMore))
    /\ (totalPages - 1) * 10 < 25 <= totalPages * 10
    /\ (hasMore = true <-> (2 + 1) * 10 < 25).
Proof.
  apply (commits_listing_paging Sample.healthy
           {| q_page := Some "2"; q_pageSize := Some "10";
              q_startDate := None; q_endDate := None |} 0 Sample.server0
           None None
           {| headers_link := Some (Sample.last_link "25"); data := Sample.commits |}
           {| headers_link := Some (Sample.last_link "25"); data := Sample.commits |});
    vm_compute; (reflexivity || congruence).
Defined.

(** C8 does not hold beyond 2^53. For [?page=1801439850948198&pageSize=5]
    on a repository of 9007199254740996 commits, [(page + 1) * pageSize] is
    9007199254740995, which is no double: the product is rounded to
    9007199254740996, and the listing reports [hasMore = false] although
    [(page + 1) * pageSize < totalCommits]. *)
Lemma commits_listing_rounds :
  let q := {| q_page := Some "1801439850948198"; q_pageSize := Some "5";
              q_startDate := None; q_endDate := None |} in
  let page := num_or (parse_int Cases.vast (q_page q)) 0 in
  let pageSize := num_or (parse_int Cases.vast (q_pageSize q)) 10 in
  let totalCommits :=
    num_or (parse_int Cases.vast (Some Cases.vast_link ≫= match_last_page Cases.vast)) 1 in
  (exec Cases.vast 0 (get_commits Cases.vast q) Sample.server0).2
  = inr (RespCommits (map (item_of Cases.vast) Sample.commits) 1801439850948200 false)
  /\ page = 1801439850948198 /\ pageSize = 5 /\ totalCommits = 9007199254740996
  /\ (page + 1) * pageSize < totalCommits
  /\ num_mul (num_add page 1) pageSize = 9007199254740996.
Proof. cbn zeta. split_and!; vm_compute; reflexivity. Qed.

Example commits_listing_sample :
  (exec Sample.healthy 0
     (get_commits Sample.healthy
        {| q_page := Some "2"; q_pageSize := Some "10";
           q_startDate := None; q_endDate := None |}) Sample.server0).2
  = inr (RespCommits (map (item_of Sample.healthy) Sample.commits) 3 false).
Proof. vm_compute. reflexivity. Qed.

(** ** One background job, run to its end *)

Section OneJob.

Variable W : World.

Lemma avoids_bind se ad {A B} (m : Async A) (f : A -> Async B) :
  avoids se ad m -> (forall a, avoids se ad (f a)) -> avoids se ad (bind m f).
Proof.
  intros Hm Hf. induction m as [a|e|k IH|C op k IH|C io k IH]; cbn in *; auto.
  - destruct Hm; auto.
  - destruct Hm; auto.
Qed.

Lemma avoids_mbind se ad {A B} (m : Async A) (f : A -> Async B) :
  avoids se ad m -> (forall a, avoids se ad (f a)) -> avoids se ad (m ≫= f).
Proof. apply avoids_bind. Qed.

Lemma avoids_try_catch se ad {A} (m : Async A) (h : Exn -> Async A) :
  avoids se ad m -> (forall e, avoids se ad (h e)) -> avoids se ad (try_catch m h).
Proof.
  intros Hm Hh. induction m as [a|e|k IH|C op k IH|C io k IH]; cbn in *; auto.
  - destruct Hm; auto.
  - destruct Hm; auto.
Qed.

Lemma avoids_await se ad {A} (m : Async A) : avoids se ad m -> avoids se ad (await m).
Proof.
  intros Hm. induction m as [a|e|k IH|C op k IH|C io k IH]; cbn in *; auto.
  - destruct Hm; auto.
  - destruct Hm; auto.
Qed.

Lemma avoids_lift se ad {A} (r : Exn + A) : avoids se ad (lift r).
Proof. by destruct r. Qed.

Lemma avoids_await_io se ad {B} (io : IO B) :
  (ad = true -> is_add io = false) -> avoids se ad (await_io io).
Proof. intros H. cbn. split; [done|]. by intros [e|b]. Qed.

Lemma avoids_promise_all se ad {A} (ms : list (Async A)) :
  Forall (avoids se ad) ms -> avoids se ad (promise_all ms).
Proof.
  induction 1 as [|m ms Hm _ IH]; cbn [promise_all]; [done|].
  apply avoids_bind; [done|]. intros a. by apply avoids_bind.
Qed.

Lemma avoids_rethrow se ad {A} label (e : Exn) :
  avoids se ad (Do (ConsoleError label e) (fun _ => @Throw A e)).
Proof. by cbn. Qed.

Lemma fetch_quiet startDate endDate :
  avoids true true (fetchCommitsInDateRange W startDate endDate).
Proof.
  apply avoids_try_catch; [|intros; apply avoids_rethrow].
  apply avoids_mbind; [apply avoids_lift|intros since].
  apply avoids_mbind; [apply avoids_lift|intros until_].
  apply avoids_mbind; [by apply avoids_await_io|done].
Qed.

Lemma generate_quiet commits :
  avoids true true (generateChangelogFromCommits W commits).
Proof.
  apply avoids_try_catch; [|intros; apply avoids_rethrow].
  apply avoids_mbind.
  - apply avoids_await, avoids_promise_all.
    induction commits as [|c l IH]; constructor; [|done].
    apply avoids_mbind; [by apply avoids_await_io|done].
  - intros ds. apply avoids_mbind; [by apply avoids_await_io|].
    intros content. apply avoids_lift.
Qed.

Lemma store_no_set changelog commits version title startDate endDate :
  avoids true false
    (storeChangelog W changelog commits version title startDate endDate).
Proof.
  apply avoids_try_catch; [|intros; apply avoids_rethrow].
  destruct (mostRecentCommit W commits); [by apply avoids_await_io|done].
Qed.

Lemma avoids_weaken se ad {A} (m : Async A) : avoids true true m -> avoids se ad m.
Proof.
  induction m as [a|e|k IH|C op k IH|C io k IH]; cbn; auto.
  - intros [H1 H2]. split; auto.
  - intros [H1 H2]. split; auto.
Qed.

Lemma stages_no_set startDate endDate version title :
  avoids true false (stages W startDate endDate version title).
Proof.
  apply avoids_mbind; [apply avoids_await, avoids_weaken, fetch_quiet|intros commits].
  apply avoids_mbind; [apply avoids_await, avoids_weaken, generate_quiet|intros changelog].
  apply avoids_mbind; [apply avoids_await, store_no_set|done].
Qed.

Lemma exec_no_set {A} ad now (m : Async A) s :
  avoids true ad m ->
  changelogJobs (exec W now m s).1 = changelogJobs s
  /\ journal (exec W now m s).1 = journal s.
Proof.
  revert s. induction m as [a|e|k IH|C op k IH|C io k IH]; intros s Hm; cbn in *; auto.
  - destruct Hm as [Hop Hk]. specialize (Hop eq_refl).
    destruct op; try discriminate; cbn.
    + by apply IH.
    + by destruct (IH tt (log_error label e s) (Hk tt)) as [-> ->].
  - destruct Hm as [_ Hk]. destruct (IH (answer W C io (db s)) (io_commit io (answer W C io (db s)) s) (Hk _)) as [-> ->].
    destruct io; cbn; try done; by destruct (answer W _ _ _).
Qed.

Lemma exec_no_add {A} se now (m : Async A) s :
  avoids se true m -> db (exec W now m s).1 = db s.
Proof.
  revert s. induction m as [a|e|k IH|C op k IH|C io k IH]; intros s Hm; cbn in *; auto.
  - destruct Hm as [_ Hk]. destruct op; cbn; by rewrite IH.
  - destruct Hm as [Hio Hk]. specialize (Hio eq_refl). rewrite IH by done.
    destruct io; try discriminate; done.
Qed.

Lemma stages_exec now startDate endDate version title s :
  exec W now (stages W startDate endDate version title) s =
    match exec W now (fetchCommitsInDateRange W startDate endDate) s with
    | (s1, inl e) => (s1, inl e)
    | (s1, inr commits) =>
        match exec W now (generateChangelogFromCommits W commits) s1 with
        | (s2, inl e) => (s2, inl e)
        | (s2, inr changelog) =>
            match exec W now
                    (storeChangelog W changelog commits version title startDate endDate) s2 with
            | (s3, inl e) => (s3, inl e)
            | (s3, inr changelogId) => (s3, inr (changelog, changelogId))
            end
        end
    end.
Proof.
  unfold stages. rewrite exec_mbind, exec_await.
  destruct (exec W now (fetchCommitsInDateRange W startDate endDate) s) as [s1 [e|commits]];
    [done|].
  rewrite exec_mbind, exec_await.
  destruct (exec W now (generateChangelogFromCommits W commits) s1) as [s2 [e|changelog]];
    [done|].
  rewrite exec_mbind, exec_await.
  by destruct (exec W now (storeChangelog W changelog commits version title startDate endDate) s2)
    as [s3 [e|changelogId]].
Qed.

Lemma generateChangelogAsync_exec now jobId startDate endDate version title s :
  exec W now (generateChangelogAsync W jobId startDate endDate version title) s =
    match exec W now (stages W startDate endDate version title) s with
    | (s', inr (changelog, changelogId)) =>
        (set_job jobId
           (completed_job {| jc_id := changelogId; jc_date := now;
                             jc_version := version; jc_title := title;
                             jc_changes := changes changelog |}) s', inr tt)
    | (s', inl e) =>
        (set_job jobId error_job
           (log_error "Error in async changelog generation:" e s'), inr tt)
    end.
Proof.
  unfold generateChangelogAsync. rewrite exec_try_catch, exec_mbind.
  by destruct (exec W now (stages W startDate endDate version title) s)
    as [s' [e|[changelog changelogId]]].
Qed.

Lemma first_failure_stages now startDate endDate version title s stage e :
  first_failure W now startDate endDate version title s = Some (stage, e) ->
  exists s', exec W now (stages W startDate endDate version title) s = (s', inl e).
Proof.
  unfold first_failure. rewrite stages_exec.
  destruct (exec W now (fetchCommitsInDateRange W startDate endDate) s) as [s1 [e1|commits]];
    [intros [= _ <-]; eauto|].
  destruct (exec W now (generateChangelogFromCommits W commits) s1) as [s2 [e2|changelog]];
    [intros [= _ <-]; eauto|].
  destruct (exec W now (storeChangelog W changelog commits version title startDate endDate) s2)
    as [s3 [e3|changelogId]]; [intros [= _ <-]; eauto|done].
Qed.

End OneJob.

Lemma get_status_set_job jobId j s : get_status jobId (set_job jobId j s) = RespJob j.
Proof. unfold get_status, set_job. cbn. by rewrite lookup_insert_eq. Qed.

(** C3: when one of the three awaited stages throws, whichever it is and
    whatever it throws, the job is written once, to
    [{status: 'error', completed: true, error: 'Failed to generate
    changelog'}], which is what the status route then returns; the
    exception only goes to the console. *)
Theorem failed_job_is_generic_error (W : World) now jobId startDate endDate
    version title s stage e :
  first_failure W now startDate endDate version title s = Some (stage, e) ->
  let s' :=
    (exec W now (generateChangelogAsync W jobId startDate endDate version title) s).1 in
  get_status jobId s'
    = RespJob {| status := "error"; completed := true; changelog := None;
                 error := Some "Failed to generate changelog" |}
  /\ journal s'
     = (journal s ++ [(jobId, {| status := "error"; completed := true; changelog := None;
                                error := Some "Failed to generate changelog" |})])%list
  /\ last (console s') = Some ("Error in async changelog generation:", e).
Proof.
  intros Hfail s'. subst s'.
  destruct (first_failure_stages W _ _ _ _ _ _ _ _ Hfail) as [s1 Hst].
  pose proof (exec_no_set W false now _ s (stages_no_set W startDate endDate version title))
    as [_ Hj].
  rewrite generateChangelogAsync_exec, Hst. rewrite Hst in Hj. cbn [fst] in *.
  split_and!.
  - apply get_status_set_job.
  - cbn. by rewrite Hj.
  - cbn. apply last_snoc.
Qed.

(** The theorem where the commit source rejects the listing. *)
Lemma failed_job_is_generic_error_witness :
  let s' :=
    (exec Sample.source_down 5
       (generateChangelogAsync Sample.source_down "1704067200000"
          (Some "2024-01-01") (Some "2024-01-31") None None) Sample.server0).1 in
  get_status "1704067200000" s'
    = RespJob {| status := "error"; completed := true; changelog := None;
                 error := Some "Failed to generate changelog" |}
  /\ journal s'
     = (journal Sample.server0
          ++ [("1704067200000",
               {| status := "error"; completed := true; changelog := None;
                  error := Some "Failed to generate changelog" |})])%list
  /\ last (console s')
     = Some ("Error in async changelog generation:", Rejected "403 rate limit exceeded").
Proof.
  apply (failed_job_is_generic_error Sample.source_down 5 "1704067200000"
           (Some "2024-01-01") (Some "2024-01-31") None None Sample.server0 Fetching).
  vm_compute. reflexivity.
Defined.

(** The entry just written at [jobId] is not the completed one. *)
Ltac not_completed Hj :=
  cbn in Hj; rewrite lookup_insert_eq in Hj; by simplify_eq.

(** C9: a job that ends as completed carries, in [changelog], the id
    under which the store added the record, the clock reading at assembly,
    the version and the title of the request as given, and the sections of
    the summarizer's draft. *)
Theorem completed_job_carries_record (W : World) now jobId startDate endDate
    version title s j :
  let s' :=
    (exec W now (generateChangelogAsync W jobId startDate endDate version title) s).1 in
  changelogJobs s' !! jobId = Some j ->
  status j = "completed" ->
  exists commits changelog changelogId latest s1 s2,
    exec W now (fetchCommitsInDateRange W startDate endDate) s = (s1, inr commits)
    /\ exec W now (generateChangelogFromCommits W commits) s1 = (s2, inr changelog)
    /\ mostRecentCommit W commits = Some latest
    /\ db s'
       = db s ++ [(changelogId,
                   changelogData changelog latest version title startDate endDate)]
    /\ j = {| status := "completed"; completed := true;
              changelog := Some {| jc_id := changelogId; jc_date := now;
                                   jc_version := version; jc_title := title;
                                   jc_changes := changes changelog |};
              error := None |}.
Proof.
  intros s' Hj Hstatus. subst s'.
  rewrite generateChangelogAsync_exec, stages_exec in *.
  pose proof (exec_no_add W true now _ s (fetch_quiet W startDate endDate)) as Hdb1.
  destruct (exec W now (fetchCommitsInDateRange W startDate endDate) s)
    as [s1 [e|commits]] eqn:Hfetch; cbn [fst] in *.
  { not_completed Hj. }
  pose proof (exec_no_add W true now _ s1 (generate_quiet W commits)) as Hdb2.
  destruct (exec W now (generateChangelogFromCommits W commits) s1)
    as [s2 [e|changelog]] eqn:Hgen; cbn [fst] in *.
  { not_completed Hj. }
  destruct (exec W now (storeChangelog W changelog commits version title startDate endDate) s2)
    as [s3 [e|changelogId]] eqn:Hstore; cbn [fst] in *.
  { not_completed Hj. }
  destruct (storeChangelog_appends W _ _ _ _ _ _ _ _ _ _ Hstore) as (latest & Hm & Hdb3).
  cbn in Hj. rewrite lookup_insert_eq in Hj.
  exists commits, changelog, changelogId, latest, s1, s2. split_and!; try done.
  - cbn. rewrite Hdb3. congruence.
  - by simplify_eq.
Qed.

(** The theorem on the sample repository with every collaborator up. *)
Lemma completed_job_carries_record_witness :
  exists commits changelog changelogId latest s1 s2,
    exec Sample.healthy 9
      (fetchCommitsInDateRange Sample.healthy (Some "2024-01-01") (Some "2024-01-31"))
      Sample.server0 = (s1, inr commits)
    /\ exec Sample.healthy 9 (generateChangelogFromCommits Sample.healthy commits) s1
       = (s2, inr changelog)
    /\ mostRecentCommit Sample.healthy commits = Some latest
    /\ db (exec Sample.healthy 9
             (generateChangelogAsync Sample.healthy "7" (Some "2024-01-01")
                (Some "2024-01-31") (Some "1.2.0") None) Sample.server0).1
       = db Sample.server0
           ++ [(changelogId,
                changelogData changelog latest (Some "1.2.0") None
                  (Some "2024-01-01") (Some "2024-01-31"))]
    /\ completed_job {| jc_id := "doc0"; jc_date := 9; jc_version := Some "1.2.0";
                        jc_title := None; jc_changes := changes Sample.draft |}
       = {| status := "completed"; completed := true;
            changelog := Some {| jc_id := changelogId; jc_date := 9;
                                 jc_version := Some "1.2.0"; jc_title := None;
                                 jc_changes := changes changelog |};
            error := None |}.
Proof.
  apply (completed_job_carries_record Sample.healthy 9 "7" (Some "2024-01-01")
           (Some "2024-01-31") (Some "1.2.0") None Sample.server0).
  - vm_compute. reflexivity.
  - reflexivity.
Defined.

(** C10, as the code has it: when the fetched commit set is empty the job
    fails at record assembly at the latest. If the summarizer returns a
    draft, [storeChangelog] throws on reading the date of no commit, before
    the store is asked anything; if the summarizer throws, the job fails
    there. Either way the job ends as the error job and the collection is
    as it was. *)
Theorem empty_commit_set_fails (W : World) now jobId startDate endDate
    version title s s1 :
  exec W now (fetchCommitsInDateRange W startDate endDate) s = (s1, inr []) ->
  let s' :=
    (exec W now (generateChangelogAsync W jobId startDate endDate version title) s).1 in
  (exists stage e,
     first_failure W now startDate endDate version title s = Some (stage, e)
     /\ match (exec W now (generateChangelogFromCommits W []) s1).2 with
        | inr _ =>
            stage = Persisting
            /\ e = TypeError "Cannot read properties of null (reading 'date')"
        | inl e' => stage = Summarizing /\ e = e'
        end)
  /\ get_status jobId s'
     = RespJob {| status := "error"; completed := true; changelog := None;
                  error := Some "Failed to generate changelog" |}
  /\ db s' = db s.
Proof.
  intros Hfetch s'. subst s'.
  pose proof (exec_no_add W true now _ s (fetch_quiet W startDate endDate)) as Hdb1.
  pose proof (exec_no_add W true now _ s1 (generate_quiet W [])) as Hdb2.
  rewrite generateChangelogAsync_exec, stages_exec. unfold first_failure.
  rewrite Hfetch in *. cbn [fst] in *.
  destruct (exec W now (generateChangelogFromCommits W []) s1) as [s2 [e|changelog]];
    cbn [fst snd] in *.
  - split_and!; [by eexists _, _ | apply get_status_set_job | cbn; congruence].
  - rewrite storeChangelog_empty.
    split_and!; [by eexists _, _ | apply get_status_set_job | cbn; congruence].
Qed.

(** The theorem on a range without commits. *)
Lemma empty_commit_set_fails_witness :
  let s' :=
    (exec Sample.no_commits 3
       (generateChangelogAsync Sample.no_commits "3" (Some "2024-01-31")
          (Some "2024-01-01") None None) Sample.server0).1 in
  (exists stage e,
     first_failure Sample.no_commits 3 (Some "2024-01-31") (Some "2024-01-01") None None
       Sample.server0 = Some (stage, e)
     /\ match (exec Sample.no_commits 3
                 (generateChangelogFromCommits Sample.no_commits []) Sample.server0).2 with
        | inr _ =>
            stage = Persisting
            /\ e = TypeError "Cannot read properties of null (reading 'date')"
        | inl e' => stage = Summarizing /\ e = e'
        end)
  /\ get_status "3" s'
     = RespJob {| status := "error"; completed := true; changelog := None;
                  error := Some "Failed to generate changelog" |}
  /\ db s' = db Sample.server0.
Proof.
  apply (empty_commit_set_fails Sample.no_commits 3 "3" (Some "2024-01-31")
           (Some "2024-01-01") None None Sample.server0 Sample.server0).
  vm_compute. reflexivity.
Defined.

(** C10 does not hold when the summarizer is down: with no commit in the
    range, the stage that fails is the summarization, not the record
    assembly. *)
Lemma empty_commit_set_fails_in_summary :
  exec Sample.no_commits_no_summary 3
    (fetchCommitsInDateRange Sample.no_commits_no_summary
       (Some "2024-01-01") (Some "2024-01-31")) Sample.server0
    = (Sample.server0, inr [])
  /\ first_failure Sample.no_commits_no_summary 3
       (Some "2024-01-01") (Some "2024-01-31") None None Sample.server0
     = Some (Summarizing, Rejected "503 from the completion endpoint")
  /\ ~ exists e,
         first_failure Sample.no_commits_no_summary 3
           (Some "2024-01-01") (Some "2024-01-31") None None Sample.server0
         = Some (Persisting, e).
Proof.
  split_and!; [vm_compute; reflexivity..|].
  intros [e He]. vm_compute in He. discriminate.
Qed.

(** ** The event loop *)

Section Loop.

Variable W : World.

Lemma is_set_eff_write {B} (op : Eff B) : is_set op = false -> eff_write op = None.
Proof. by destruct op. Qed.

Lemma sets_once_protected id ad {A B} (m : Async A) (f : A -> Async B)
    (h : Exn -> Async B) :
  avoids true ad m ->
  (forall a, sets_once id (try_catch (f a) h)) ->
  (forall e, sets_once id (h e)) ->
  sets_once id (try_catch (bind m f) h).
Proof.
  intros Hm Hf Hh. induction m as [a|e|k IH|C op k IH|C io k IH]; cbn in *; auto.
  - destruct Hm as [Hop Hk]. rewrite is_set_eff_write by auto. auto.
  - destruct Hm as [_ Hk]. auto.
Qed.

Lemma generateChangelogAsync_sets_once jobId startDate endDate version title :
  sets_once jobId (generateChangelogAsync W jobId startDate endDate version title).
Proof.
  apply (sets_once_protected jobId false); [apply stages_no_set| |].
  - intros [changelog changelogId]. cbn. intros now. by split_and!.
  - intros e. cbn. intros _. by split_and!.
Qed.

Lemma ends_is_done {A} (m : Async A) : ends m -> is_done m = true.
Proof. by destruct m. Qed.

Lemma sets_once_not_done id {A} (m : Async A) : sets_once id m -> is_done m = false.
Proof. by destruct m. Qed.

Lemma drain_ends {A} now (m : Async A) s : ends m -> drain now m s = (s, m).
Proof. by destruct m. Qed.

Lemma progress_trans id s1 s2 s3 m :
  changelogJobs s2 = changelogJobs s1 -> journal s2 = journal s1 ->
  progress id s2 s3 m -> progress id s1 s3 m.
Proof. unfold progress. intros -> ->. done. Qed.

Lemma drain_progress id now (m : Async unit) s :
  sets_once id m -> progress id s (drain now m s).1 (drain now m s).2.
Proof.
  revert s. induction m as [a|e|k IH|C op k IH|C io k IH]; intros s Hm; cbn in Hm; try done.
  - cbn. by apply IH.
  - destruct op as [id' j| |label e]; cbn in Hm |- *.
    + destruct Hm as (-> & Hj & Hk). rewrite drain_ends by done. cbn.
      right. split; [by apply ends_is_done|]. by exists j.
    + by apply IH.
    + eapply progress_trans; [| |by apply IH]; done.
  - cbn. by left.
Qed.

Lemma run_sync_drain {A} now (m : Async A) s :
  drain now (run_sync now m s).2 (run_sync now m s).1 = drain now m s.
Proof.
  revert s. induction m as [a|e|k IH|C op k IH|C io k IH]; intros s; cbn; auto.
  destruct (do_eff now op s) as [s' b]. apply IH.
Qed.

Lemma io_commit_shared {B} (io : IO B) r s :
  changelogJobs (io_commit io r s) = changelogJobs s
  /\ journal (io_commit io r s) = journal s.
Proof. destruct io; cbn; try done. by destruct r. Qed.

Lemma settle_progress id ans now (m : Async unit) s :
  sets_once id m -> progress id s (settle ans now m s).1 (settle ans now m s).2.
Proof.
  intros Hm. destruct m as [a|e|k|C op k|C io k]; try done;
    try (by apply (drain_progress id now)).
  cbn [settle]. destruct (io_commit_shared io (ans C io (db s)) s) as [Hj Hl].
  eapply progress_trans; [exact Hj|exact Hl|]. apply drain_progress. apply Hm.
Qed.

End Loop.

(** ** Counting suspended calls and completed writes *)

Lemma tasks_of_snoc id ts t :
  tasks_of id (ts ++ [t])
  = (tasks_of id ts + if decide (task_job t = id) then 1 else 0)%nat.
Proof.
  unfold tasks_of. rewrite filter_app, length_app. f_equal.
  rewrite filter_cons, filter_nil. by case_decide.
Qed.

Lemma tasks_of_insert id ts i t t' :
  ts !! i = Some t -> task_job t' = task_job t ->
  tasks_of id (<[i := t']> ts) = tasks_of id ts.
Proof.
  intros Hi Hjob. rewrite <- (take_drop_middle ts i t Hi) at 2.
  rewrite insert_take_drop by (by eapply lookup_lt_Some).
  unfold tasks_of. rewrite !filter_app, !filter_cons, !length_app, Hjob.
  by case_decide.
Qed.

Lemma tasks_of_delete id ts i t :
  ts !! i = Some t ->
  tasks_of id ts
  = (tasks_of id (delete i ts) + if decide (task_job t = id) then 1 else 0)%nat.
Proof.
  intros Hi. rewrite <- (take_drop_middle ts i t Hi) at 1.
  rewrite delete_take_drop. unfold tasks_of.
  rewrite !filter_app, filter_cons, !length_app.
  case_decide; cbn; lia.
Qed.

Lemma terminal_writes_snoc id jl id' j :
  terminal_writes id (jl ++ [(id', j)])
  = (terminal_writes id jl
     + if decide (id' = id /\ completed j = true) then 1 else 0)%nat.
Proof.
  unfold terminal_writes. rewrite filter_app, length_app. f_equal.
  rewrite filter_cons, filter_nil. cbn. by case_decide.
Qed.

Lemma allocated_snoc evs e :
  allocated (evs ++ [e])
  = (allocated evs ++ match submit_time e with
                      | Some t => [Number_toString t]
                      | None => []
                      end)%list.
Proof.
  unfold allocated, submit_times. rewrite omap_app, fmap_app. f_equal.
  cbn. by destruct (submit_time e).
Qed.

Lemma occurrences_snoc (id x : string) (l : list string) :
  length (filter (fun y => y = id) (l ++ [x]))
  = (length (filter (fun y => y = id) l) + if decide (x = id) then 1 else 0)%nat.
Proof.
  rewrite filter_app, length_app. f_equal.
  rewrite filter_cons, filter_nil. by case_decide.
Qed.

Lemma occurrences_absent (id : string) (l : list string) :
  id ∉ l -> filter (fun y => y = id) l = [].
Proof.
  induction l as [|x l IH]; [done|]. intros [Hx Hl]%not_elem_of_cons.
  rewrite filter_cons, decide_False by done. by apply IH.
Qed.

Lemma occurrences_NoDup (id : string) (l : list string) :
  NoDup l -> id ∈ l -> length (filter (fun y => y = id) l) = 1%nat.
Proof.
  induction 1 as [|x l Hx Hl IH]; intros Hin; [by apply elem_of_nil in Hin|].
  rewrite filter_cons. apply elem_of_cons in Hin as [->|Hin].
  - rewrite decide_True by done. cbn. by rewrite occurrences_absent.
  - rewrite decide_False by (intros ->; done). by apply IH.
Qed.

Lemma occurrences_pos (id : string) (l : list string) :
  (0 < length (filter (fun y => y = id) l))%nat -> id ∈ l.
Proof.
  intros Hpos. destruct (decide (id ∈ l)) as [|Hnot]; [done|].
  rewrite occurrences_absent in Hpos by done. cbn in Hpos. lia.
Qed.

Lemma tasks_of_pos id (ts : list Task) i t :
  ts !! i = Some t -> task_job t = id -> (0 < tasks_of id ts)%nat.
Proof.
  intros Hi Hjob. rewrite (tasks_of_delete id ts i t Hi).
  rewrite decide_True by done. lia.
Qed.

(** ** Invariant of the event loop *)

Section Histories.

Variable W : World.

Lemma step_post now b n :
  step W now (POST_changelogs (Some b)) n =
    let jobId := Number_toString now in
    let r := drain now
               (generateChangelogAsync W jobId (body_startDate b) (body_endDate b)
                  (body_version b) (body_title b))
               (set_job jobId processing_job (server n)) in
    ({| server := r.1; pending := park jobId r.2 (pending n) |}, Some (RespId jobId)).
Proof.
  unfold step, post_changelogs.
  pose proof (run_sync_drain now
    (generateChangelogAsync W (Number_toString now) (body_startDate b) (body_endDate b)
       (body_version b) (body_title b))
    (set_job (Number_toString now) processing_job (server n))) as Hrd.
  destruct (run_sync now _ _) as [s2 m]. cbn [fst snd task_job task_body] in *.
  rewrite <- Hrd. by destruct (drain now m s2) as [s3 m'].
Qed.

Lemma run_snoc evs now ev n :
  run W (evs ++ [(now, ev)]) n = (step W now ev (run W evs n)).1.
Proof.
  revert n. induction evs as [|[now' ev'] evs IH]; intros n; [done|].
  cbn [app run]. apply IH.
Qed.

Lemma step_consistent evs now ev n :
  consistent evs n -> consistent (evs ++ [(now, ev)]) (step W now ev n).1.
Proof.
  intros (Htasks & Hcount & Hkeys). destruct ev as [[b|]|id|i ans].
  - (* a generation request *)
    rewrite step_post. cbn zeta.
    set (jobId := Number_toString now).
    set (s1 := set_job jobId processing_job (server n)).
    pose proof (drain_progress jobId now _ s1
      (generateChangelogAsync_sets_once W jobId (body_startDate b) (body_endDate b)
         (body_version b) (body_title b))) as Hprog.
    destruct (drain now _ s1) as [s3 m']. cbn [fst snd] in *.
    unfold consistent. cbn [server pending]. rewrite allocated_snoc. cbn [submit_time snd fst].
    fold jobId.
    destruct Hprog as [(Hm' & Hjobs & Hjl) | (Hdone & j & Hj & Hjobs & Hjl)].
    + unfold park. rewrite (sets_once_not_done _ _ Hm'). split_and!.
      * apply Forall_app. split; [done|]. by constructor.
      * intros id. rewrite tasks_of_snoc, occurrences_snoc, Hjl. cbn [task_job].
        subst s1. cbn [set_job journal]. rewrite terminal_writes_snoc.
        rewrite (decide_False (P := _ /\ _)) by (cbn; intros [_ ?]; done).
        specialize (Hcount id). lia.
      * intros id. rewrite Hjobs. subst s1. cbn [set_job changelogJobs].
        rewrite elem_of_app, list_elem_of_singleton.
        destruct (decide (jobId = id)) as [->|Hne]; [by right|].
        rewrite lookup_insert_ne by done. auto.
    + unfold park. rewrite Hdone. split_and!.
      * done.
      * intros id. rewrite occurrences_snoc, Hjl.
        subst s1. cbn [set_job journal]. rewrite !terminal_writes_snoc.
        rewrite (decide_False (P := _ /\ completed processing_job = true))
          by (cbn; intros [_ ?]; done).
        specialize (Hcount id).
        destruct (decide (jobId = id)) as [->|Hne].
        -- rewrite decide_True by done. lia.
        -- rewrite decide_False by (intros [? _]; done). lia.
      * intros id. rewrite Hjobs. subst s1. cbn [set_job changelogJobs].
        rewrite elem_of_app, list_elem_of_singleton.
        destruct (decide (jobId = id)) as [->|Hne]; [by right|].
        rewrite !lookup_insert_ne by done. auto.
  - (* a request without a body *)
    unfold consistent. rewrite allocated_snoc. cbn. rewrite app_nil_r. done.
  - (* a status request *)
    unfold consistent. rewrite allocated_snoc. cbn. rewrite app_nil_r. done.
  - (* a collaborator answers *)
    unfold consistent. rewrite allocated_snoc. cbn [submit_time snd]. rewrite app_nil_r.
    cbn [step]. destruct (pending n !! i) as [t|] eqn:Hi; [|done].
    pose proof (Forall_lookup_1 _ _ _ _ Htasks Hi) as Ht. cbn beta in Ht.
    pose proof (settle_progress (task_job t) ans now _ (server n) Ht) as Hprog.
    destruct (settle ans now (task_body t) (server n)) as [s' m']. cbn [fst snd] in *.
    destruct Hprog as [(Hm' & Hjobs & Hjl) | (Hdone & j & Hj & Hjobs & Hjl)].
    + rewrite (sets_once_not_done _ _ Hm'). cbn [server pending]. split_and!.
      * apply Forall_insert; done.
      * intros id. rewrite (tasks_of_insert id _ i t) by done. rewrite Hjl. apply Hcount.
      * intros id. rewrite Hjobs. apply Hkeys.
    + rewrite Hdone. cbn [server pending]. split_and!.
      * by apply Forall_delete.
      * intros id. rewrite Hjl, terminal_writes_snoc. specialize (Hcount id).
        rewrite (tasks_of_delete id _ i t Hi) in Hcount.
        destruct (decide (task_job t = id)) as [->|Hne].
        -- rewrite decide_True by done. lia.
        -- rewrite decide_False by (intros [? _]; done). lia.
      * intros id. rewrite Hjobs.
        destruct (decide (task_job t = id)) as [<-|Hne].
        -- intros _. apply occurrences_pos. rewrite <- Hcount.
           pose proof (tasks_of_pos (task_job t) _ i t Hi eq_refl). lia.
        -- rewrite lookup_insert_ne by done. apply Hkeys.
Qed.

Lemma init_consistent : consistent [] init.
Proof.
  split_and!; [by constructor | done |].
  intros id [j Hj]. cbn in Hj. by rewrite lookup_empty in Hj.
Qed.

Lemma run_consistent evs : consistent evs (run W evs init).
Proof.
  induction evs as [|[now ev] evs IH] using rev_ind; [apply init_consistent|].
  rewrite run_snoc. by apply step_consistent.
Qed.

End Histories.

(** ** A background call left alone runs as [exec] says *)

Section Settling.

Variable W : World.

Lemma delete_insert_same {A} (l : list A) i x : delete i (<[i := x]> l) = delete i l.
Proof.
  rewrite !delete_take_drop, take_insert_ge by lia.
  by rewrite drop_insert_lt by lia.
Qed.

(** The slot [i] of the suspended calls after a turn that left the call
    of job [jobId] as [m]. *)
Lemma settles_reach_exec now jobId i (m : Async unit) : forall (ts : list Task) s,
  (i < length ts)%nat ->
  exists k,
    run W (replicate k (now, Settled i (answer W)))
      {| server := (drain now m s).1;
         pending := if is_done (drain now m s).2 then delete i ts
                    else <[i := {| task_job := jobId; task_body := (drain now m s).2 |}]> ts |}
    = {| server := (exec W now m s).1; pending := delete i ts |}.
Proof.
  induction m as [a|e|k IH|C op k IH|C io k IH]; intros ts s Hi.
  - by exists 0%nat.
  - by exists 0%nat.
  - cbn [drain exec]. by apply IH.
  - cbn [drain exec]. destruct (do_eff now op s) as [s' b]. by apply IH.
  - cbn [drain exec fst snd is_done].
    set (r := answer W C io (db s)).
    destruct (IH r ts (io_commit io r s) Hi) as [n Hn].
    exists (S n). cbn [replicate run step server pending].
    rewrite list_lookup_insert_eq by done. cbn [task_body task_job settle]. fold r.
    destruct (drain now (k r) (io_commit io r s)) as [s' m'] eqn:Hd.
    cbn [fst snd] in *.
    rewrite delete_insert_same, list_insert_insert_eq. exact Hn.
Qed.

(** A generation request followed by enough answers to its background
    call, and nothing else in between, leaves the server as the call run
    in one go. *)
Lemma submit_runs_to_exec now b n :
  let jobId := Number_toString now in
  exists k,
    run W (replicate k (now, Settled (length (pending n)) (answer W)))
      (step W now (POST_changelogs (Some b)) n).1
    = {| server :=
           (exec W now
              (generateChangelogAsync W jobId (body_startDate b) (body_endDate b)
                 (body_version b) (body_title b))
              (set_job jobId processing_job (server n))).1;
         pending := pending n |}.
Proof.
  intros jobId. rewrite step_post. cbn zeta. fold jobId.
  set (m := generateChangelogAsync W jobId _ _ _ _).
  set (s1 := set_job jobId processing_job (server n)).
  set (t0 := {| task_job := jobId; task_body := m |}).
  destruct (settles_reach_exec now jobId (length (pending n)) m (pending n ++ [t0]) s1)
    as [k Hk]; [rewrite length_app; cbn; lia|].
  assert (delete (length (pending n)) (pending n ++ [t0]) = pending n) as Hdel.
  { change (pending n ++ [t0]) with (pending n ++ t0 :: []).
    by rewrite delete_middle, app_nil_r. }
  assert (<[length (pending n) := {| task_job := jobId; task_body := (drain now m s1).2 |}]>
            (pending n ++ [t0])
          = pending n ++ [{| task_job := jobId; task_body := (drain now m s1).2 |}]) as Hins.
  { replace (length (pending n)) with (length (pending n) + 0)%nat at 1 by lia.
    by rewrite insert_app_r. }
  rewrite Hdel, Hins in Hk. exists k. rewrite <- Hk. unfold park.
  by destruct (is_done (drain now m s1).2).
Qed.

End Settling.

(** ** Submitting and polling *)

Section Submit.

Variable W : World.

Lemma run_sync_valid_dates now jobId startDate endDate version title s t1 t2 :
  new_Date W startDate = Some t1 ->
  new_Date W endDate = Some t2 ->
  exists k,
    run_sync now (generateChangelogAsync W jobId startDate endDate version title) s
    = (s, Await (ListCommits (Some (Date_toISOString W t1))
                   (Some (Date_toISOString W t2)) None None) k).
Proof.
  intros H1 H2. eexists.
  unfold generateChangelogAsync, stages, fetchCommitsInDateRange, toISOString.
  rewrite H1, H2. reflexivity.
Qed.

Lemma run_sync_suspends now jobId startDate endDate version title s :
  let r := run_sync now (generateChangelogAsync W jobId startDate endDate version title) s in
  changelogJobs r.1 = changelogJobs s /\ journal r.1 = journal s /\ db r.1 = db s
  /\ is_done r.2 = false.
Proof.
  destruct (new_Date W startDate) as [t1|] eqn:H1;
    [destruct (new_Date W endDate) as [t2|] eqn:H2|].
  - destruct (run_sync_valid_dates now jobId _ _ version title s _ _ H1 H2) as [k ->]. done.
  - unfold generateChangelogAsync, stages, fetchCommitsInDateRange, toISOString.
    rewrite H1, H2. done.
  - unfold generateChangelogAsync, stages, fetchCommitsInDateRange, toISOString.
    rewrite H1. done.
Qed.

End Submit.

(** The route handed a body: the request is answered with its job id
    while the table holds [{status: 'processing', completed: false}] for
    it, written just before, and the background call is suspended, not
    ended, with the store untouched. When the start and end dates of the
    body are parseable, the entry is still that one after the turn, so a
    status request handled next returns it, and the background call waits
    for the commit listing. *)
Theorem submit_then_status (W : World) now later (b : ReqBody) (n : Node) :
  let jobId := Number_toString now in
  let processing :=
    {| status := "processing"; completed := false; changelog := None; error := None |} in
  (exists s t,
     post_changelogs W now (Some b) (server n) = (s, RespId jobId, Some t)
     /\ task_job t = jobId
     /\ is_done (task_body t) = false
     /\ changelogJobs s !! jobId = Some processing
     /\ journal s = journal (server n) ++ [(jobId, processing)]
     /\ db s = db (server n))
  /\ (is_Some (new_Date W (body_startDate b)) ->
      is_Some (new_Date W (body_endDate b)) ->
      let n' := (step W now (POST_changelogs (Some b)) n).1 in
      (step W now (POST_changelogs (Some b)) n).2 = Some (RespId jobId)
      /\ step W later (GET_status jobId) n' = (n', Some (RespJob processing))
      /\ exists since until_ k,
           pending n'
           = pending n ++ [ {| task_job := jobId;
                               task_body := Await (ListCommits since until_ None None) k |} ]).
Proof.
  intros jobId processing. split.
  - unfold post_changelogs. fold jobId.
    pose proof (run_sync_suspends W now jobId (body_startDate b) (body_endDate b)
                  (body_version b) (body_title b)
                  (set_job jobId processing_job (server n)))
      as (Hjobs & Hjournal & Hdb & Hdone).
    destruct (run_sync now _ _) as [s2 m]. cbn [fst snd] in *.
    exists s2, {| task_job := jobId; task_body := m |}. split_and!; try done.
    rewrite Hjobs. cbn. by rewrite lookup_insert_eq.
  - intros [t1 H1] [t2 H2] n'. subst n'. rewrite step_post. cbn zeta. fold jobId.
    destruct (run_sync_valid_dates W now jobId _ _ (body_version b) (body_title b)
                (set_job jobId processing_job (server n)) _ _ H1 H2) as [k Hk].
    pose proof (run_sync_drain now
      (generateChangelogAsync W jobId (body_startDate b) (body_endDate b)
         (body_version b) (body_title b))
      (set_job jobId processing_job (server n))) as Hrd.
    rewrite Hk in Hrd. cbn [fst snd drain] in Hrd. rewrite <- Hrd.
    cbn [fst snd park is_done]. split_and!; [done| |by eexists _, _, _].
    cbn [step]. unfold get_status. cbn. by rewrite lookup_insert_eq.
Qed.

(** The route handed the body of a request for January 2024, on a fresh
    process. *)
Lemma submit_then_status_witness :
  let processing :=
    {| status := "processing"; completed := false; changelog := None; error := None |} in
  let n' := (step Sample.healthy 1704067200000 (POST_changelogs (Some Sample.january)) init).1 in
  (step Sample.healthy 1704067200000 (POST_changelogs (Some Sample.january)) init).2
    = Some (RespId "1704067200000")
  /\ step Sample.healthy 1704067200001 (GET_status "1704067200000") n'
     = (n', Some (RespJob processing))
  /\ exists since until_ k,
       pending n'
       = pending init ++ [ {| task_job := "1704067200000";
                              task_body := Await (ListCommits since until_ None None) k |} ].
Proof.
  apply (proj2 (submit_then_status Sample.healthy 1704067200000 1704067200001
                  Sample.january init)).
  - vm_compute. eauto.
  - vm_compute. eauto.
Defined.

(** The route handed a body without dates: the background call fails
    before it asks the commit source anything and writes the error job in
    a microtask of the same turn, so the status request handled next
    already reads it. *)
Lemma submit_then_status_unparseable :
  let n' := (step Sample.healthy 5 (POST_changelogs (Some Sample.no_dates)) init).1 in
  (step Sample.healthy 5 (POST_changelogs (Some Sample.no_dates)) init).2
    = Some (RespId "5")
  /\ (step Sample.healthy 6 (GET_status "5") n').2
     = Some (RespJob {| status := "error"; completed := true; changelog := None;
                        error := Some "Failed to generate changelog" |})
  /\ (step Sample.healthy 6 (GET_status "5") n').2
     <> Some (RespJob {| status := "processing"; completed := false;
                         changelog := None; error := None |})
  /\ pending n' = [].
Proof.
  cbn zeta. split_and!; [vm_compute; reflexivity..| |vm_compute; reflexivity].
  vm_compute. discriminate.
Qed.

(** C7: after any history, a status request for an id that no generation
    request of the history was given is answered 404 with
    [{error: 'Job not found'}], and leaves the job table, and the whole
    node, as it was. *)
Theorem status_of_unknown_job (W : World) (evs : list (Z * Event)) now id :
  id ∉ allocated evs ->
  step W now (GET_status id) (run W evs init)
  = (run W evs init, Some (RespError 404 "Job not found")).
Proof.
  intros Hid. cbn [step]. unfold get_status.
  destruct (run_consistent W evs) as (_ & _ & Hkeys).
  destruct (changelogJobs (server (run W evs init)) !! id) as [j|] eqn:Hj; [|done].
  destruct Hid. apply Hkeys. by exists j.
Qed.

(** The scenario of the specification, after one job has run to its end. *)
Lemma status_of_unknown_job_witness :
  let evs := (1704067200000, POST_changelogs (Some Sample.january))
             :: replicate 5 (1704067200500, Settled 0 (answer Sample.healthy)) in
  step Sample.healthy 1704067200900 (GET_status "does-not-exist")
    (run Sample.healthy evs init)
  = (run Sample.healthy evs init, Some (RespError 404 "Job not found")).
Proof.
  apply (status_of_unknown_job Sample.healthy).
  apply (bool_decide_unpack _). vm_compute. reflexivity.
Defined.

(** The route handed bodies: the job id is the clock reading of the
    request, so two requests that read different clock values are given
    different ids. In a history whose requests read pairwise different
    values the ids are pairwise different, and each id has exactly one
    background call: either it is still suspended, owing its single write
    of a completed state, and no completed state was written for the id, or
    it has returned and exactly one completed state was written for the
    id. *)
Theorem distinct_readings_distinct_jobs (W : World) (evs : list (Z * Event)) :
  (forall t1 t2 b1 b2 n1 n2, t1 <> t2 ->
     exists id1 id2,
       (step W t1 (POST_changelogs (Some b1)) n1).2 = Some (RespId id1)
       /\ (step W t2 (POST_changelogs (Some b2)) n2).2 = Some (RespId id2)
       /\ id1 <> id2)
  /\ (NoDup (submit_times evs) ->
      let n := run W evs init in
      NoDup (allocated evs)
      /\ Forall (fun t => sets_once (task_job t) (task_body t)) (pending n)
      /\ forall id, id ∈ allocated evs ->
           (tasks_of id (pending n) + terminal_writes id (journal (server n)))%nat
           = 1%nat).
Proof.
  split.
  - intros t1 t2 b1 b2 n1 n2 Hne.
    exists (Number_toString t1), (Number_toString t2). rewrite !step_post.
    split_and!; [done..|]. unfold Number_toString. by intros ?%(inj _).
  - intros Hnd n. subst n.
    destruct (run_consistent W evs) as (Htasks & Hcount & _).
    assert (NoDup (allocated evs)) as Hids.
    { unfold allocated, Number_toString. by apply (NoDup_fmap_2 _). }
    split_and!; [done..|].
    intros id Hid. rewrite Hcount. by apply occurrences_NoDup.
Qed.

(** Two bodies handed over one millisecond apart, the first call answered
    by all its collaborators. *)
Lemma distinct_readings_distinct_jobs_witness :
  let evs := [ (5, POST_changelogs (Some Sample.january));
               (6, POST_changelogs (Some Sample.january)) ]
             ++ replicate 5 (7, Settled 0 (answer Sample.healthy)) in
  let n := run Sample.healthy evs init in
  (exists id1 id2,
     (step Sample.healthy 5 (POST_changelogs (Some Sample.january)) init).2
       = Some (RespId id1)
     /\ (step Sample.healthy 6 (POST_changelogs (Some Sample.january)) init).2
        = Some (RespId id2)
     /\ id1 <> id2)
  /\ NoDup (allocated evs)
  /\ Forall (fun t => sets_once (task_job t) (task_body t)) (pending n)
  /\ forall id, id ∈ allocated evs ->
       (tasks_of id (pending n) + terminal_writes id (journal (server n)))%nat = 1%nat.
Proof.
  cbn zeta.
  destruct (distinct_readings_distinct_jobs Sample.healthy
              ([ (5, POST_changelogs (Some Sample.january));
                 (6, POST_changelogs (Some Sample.january)) ]
               ++ replicate 5 (7, Settled 0 (answer Sample.healthy))))
    as [Hpair Hrun].
  split.
  - apply (Hpair 5 6). lia.
  - apply Hrun. apply (bool_decide_unpack _). vm_compute. reflexivity.
Defined.

(** Two bodies handed over in the same millisecond are given the same id,
    so one job has two background calls and two completed states are
    written for it. *)
Lemma same_reading_same_job :
  let posts := [ (5, POST_changelogs (Some Sample.january));
                 (5, POST_changelogs (Some Sample.january)) ] in
  let n := run Sample.healthy posts init in
  let n' := run Sample.healthy (replicate 10 (7, Settled 0 (answer Sample.healthy))) n in
  allocated posts = ["5"; "5"]
  /\ ~ NoDup (allocated posts)
  /\ tasks_of "5" (pending n) = 2%nat
  /\ pending n' = []
  /\ terminal_writes "5" (journal (server n')) = 2%nat.
Proof.
  cbn zeta. split_and!; try (vm_compute; reflexivity).
  intros Hnd. apply NoDup_cons in Hnd as [Hnot _]. apply Hnot. vm_compute. left.
Qed.

Example two_jobs_sample :
  let evs := [ (5, POST_changelogs (Some Sample.january));
               (6, POST_changelogs (Some Sample.january)) ]
             ++ replicate 5 (7, Settled 0 (answer Sample.healthy)) in
  let n := run Sample.healthy evs init in
  get_status "5" (server n)
    = RespJob (completed_job {| jc_id := "doc0"; jc_date := 7; jc_version := Some "1.2.0";
                               jc_title := None; jc_changes := changes Sample.draft |})
  /\ get_status "6" (server n) = RespJob processing_job
  /\ tasks_of "5" (pending n) = 0%nat /\ tasks_of "6" (pending n) = 1%nat.
Proof. cbn zeta. split_and!; vm_compute; reflexivity. Qed.

(** End to end: a generation request whose pipeline fails is, after
    enough answers to its background call, polled as the error job. *)
Lemma failed_submit_polls_error (W : World) now later b n stage e :
  let jobId := Number_toString now in
  first_failure W now (body_startDate b) (body_endDate b) (body_version b) (body_title b)
    (set_job jobId processing_job (server n)) = Some (stage, e) ->
  exists k,
    (step W later (GET_status jobId)
       (run W (replicate k (now, Settled (length (pending n)) (answer W)))
          (step W now (POST_changelogs (Some b)) n).1)).2
    = Some (RespJob error_job).
Proof.
  intros jobId Hfail. destruct (submit_runs_to_exec W now b n) as [k Hk].
  exists k. rewrite Hk. cbn [step snd server]. fold jobId.
  destruct (first_failure_stages W _ _ _ _ _ _ _ _ Hfail) as [s1 Hst].
  rewrite generateChangelogAsync_exec, Hst. cbn [fst].
  by rewrite get_status_set_job.
Qed.

Example source_down_polls_error :
  (step Sample.source_down 9 (GET_status "5")
     (run Sample.source_down
        [ (5, POST_changelogs (Some Sample.january)); (6, Settled 0 (answer Sample.source_down)) ] init)).2
  = Some (RespJob error_job).
Proof. vm_compute. reflexivity. Qed.

(** ** Requests as the network delivers them *)

Lemma req_body_undefined (payload : option ReqBody) : req_body payload = None.
Proof. reflexivity. Qed.




(** C2: no generation request is given a job entry. Whatever payload the
    request carries, [req.body] is [undefined] in the route, the
    destructuring of line 344 throws, and the request is answered 500
    with [{error: 'Failed to start changelog generation'}] in place of a
    job id: the job table, the background calls and the store are as they
    were, and a status request for the id that the clock reading would
    have given is answered as it would have been before, with 404 on a
    fresh process. *)
Theorem submit_leaves_no_job (W : World) now later (payload : option ReqBody) (n : Node) :
  let ev := arrives (Http_POST_changelogs payload) in
  let n' := (step W now ev n).1 in
  let jobId := Number_toString now in
  ev = POST_changelogs None
  /\ (step W now ev n).2 = Some (RespError 500 "Failed to start changelog generation")
  /\ changelogJobs (server n') = changelogJobs (server n)
  /\ journal (server n') = journal (server n)
  /\ db (server n') = db (server n)
  /\ pending n' = pending n
  /\ (step W later (GET_status jobId) n').2 = (step W later (GET_status jobId) n).2
  /\ (step W later (GET_status jobId) (step W now ev init).1).2
     = Some (RespError 404 "Job not found").
Proof. cbn zeta. cbn [arrives]. rewrite req_body_undefined. split_and!; done. Qed.

(** A request for January 2024 on a fresh process. *)
Example submit_january_refused :
  let n' := (step Sample.healthy 1704067200000
               (arrives (Http_POST_changelogs (Some Sample.january))) init).1 in
  (step Sample.healthy 1704067200000
     (arrives (Http_POST_changelogs (Some Sample.january))) init).2
  = Some (RespError 500 "Failed to start changelog generation")
  /\ changelogJobs (server n') = ∅
  /\ pending n' = []
  /\ (step Sample.healthy 1704067200001 (arrives (Http_GET_status "1704067200000")) n').2
     = Some (RespError 404 "Job not found").
Proof. cbn zeta. split_and!; vm_compute; reflexivity. Qed.


(** Two requests for January 2024 in a row. *)
Example two_submits_refused :
  let l := [ (5, Http_POST_changelogs (Some Sample.january));
             (6, Http_POST_changelogs (Some Sample.january)) ] in
  let n := run Sample.healthy (arrivals l) init in
  (step Sample.healthy 5 (arrives (Http_POST_changelogs (Some Sample.january))) init).2
  = Some (RespError 500 "Failed to start changelog generation")
  /\ (step Sample.healthy 6 (arrives (Http_POST_changelogs (Some Sample.january)))
        (step Sample.healthy 5 (arrives (Http_POST_changelogs (Some Sample.january))) init).1).2
     = Some (RespError 500 "Failed to start changelog generation")
  /\ allocated (arrivals l) = []
  /\ changelogJobs (server n) = ∅
  /\ pending n = []
  /\ length (console (server n)) = 2%nat.
Proof. cbn zeta. split_and!; vm_compute; reflexivity. Qed.

(** * Further properties of the server *)

(** ** Requests sent *)

Section Asked.

Variable W : World.

Lemma asked_bind {A B} now (m : Async A) (f : A -> Async B) s :
  asked W now (bind m f) s =
    asked W now m s ++ match exec W now m s with
                       | (s', inr a) => asked W now (f a) s'
                       | (_, inl _) => []
                       end.
Proof.
  revert s. induction m as [a|e|k IH|C op k IH|C io k IH]; intros s; cbn; auto.
  - destruct (do_eff now op s) as [s' b]. apply IH.
  - f_equal. apply IH.
Qed.

Lemma asked_mbind {A B} now (m : Async A) (f : A -> Async B) s :
  asked W now (m ≫= f) s =
    asked W now m s ++ match exec W now m s with
                       | (s', inr a) => asked W now (f a) s'
                       | (_, inl _) => []
                       end.
Proof. apply asked_bind. Qed.

Lemma asked_try_catch {A} now (m : Async A) (h : Exn -> Async A) s :
  asked W now (try_catch m h) s =
    asked W now m s ++ match exec W now m s with
                       | (s', inl e) => asked W now (h e) s'
                       | (_, inr _) => []
                       end.
Proof.
  revert s. induction m as [a|e|k IH|C op k IH|C io k IH]; intros s; cbn; auto.
  - destruct (do_eff now op s) as [s' b]. apply IH.
  - f_equal. apply IH.
Qed.

Lemma asked_await {A} now (m : Async A) s :
  asked W now (await m) s = asked W now m s.
Proof.
  revert s. induction m as [a|e|k IH|C op k IH|C io k IH]; intros s; cbn; auto.
  - destruct (do_eff now op s) as [s' b]. apply IH.
  - f_equal. apply IH.
Qed.

Lemma asked_lift {A} now (r : Exn + A) s : asked W now (lift r) s = [].
Proof. by destruct r. Qed.

Lemma asked_await_io {B} now (io : IO B) s : asked W now (await_io io) s = [Asked io].
Proof. cbn. by destruct (answer W B io (db s)). Qed.

End Asked.

Create Rewrite HintDb asked.
#[local] Hint Rewrite @asked_mbind @asked_bind @asked_try_catch @asked_await
  @asked_lift @asked_await_io @exec_mbind @exec_bind @exec_try_catch @exec_await
  @exec_await_io @exec_lift : asked.

(** ** Fetching the commits of a range *)

(** X1: When the start or the end of the range is not a parseable date,
    [fetchCommitsInDateRange] sends nothing to the commit source: it logs
    the [RangeError] of [toISOString] once and throws it again. *)
Theorem fetch_unparseable_date (W : World) now startDate endDate s :
  new_Date W startDate = None \/ new_Date W endDate = None ->
  exec W now (fetchCommitsInDateRange W startDate endDate) s
  = (log_error "Error fetching commits in date range:"
       (RangeError "Invalid time value") s,
     inl (RangeError "Invalid time value"))
  /\ asked W now (fetchCommitsInDateRange W startDate endDate) s = [].
Proof.
  intros Hbad. unfold fetchCommitsInDateRange.
  destruct (new_Date W startDate) as [t1|] eqn:H1.
  - destruct Hbad as [?|H2]; [done|]. rewrite H2. cbn. done.
  - cbn. done.
Qed.

(** The theorem at a range whose end is not a date. *)
Lemma fetch_unparseable_date_witness :
  exec Sample.healthy 0
    (fetchCommitsInDateRange Sample.healthy (Some "2024-01-01") (Some "soon"))
    Sample.server0
  = (log_error "Error fetching commits in date range:"
       (RangeError "Invalid time value") Sample.server0,
     inl (RangeError "Invalid time value"))
  /\ asked Sample.healthy 0
       (fetchCommitsInDateRange Sample.healthy (Some "2024-01-01") (Some "soon"))
       Sample.server0 = [].
Proof.
  apply (fetch_unparseable_date Sample.healthy 0 (Some "2024-01-01") (Some "soon")
           Sample.server0).
  right. vm_compute. reflexivity.
Defined.

(** X2: With a parseable range, [fetchCommitsInDateRange] sends one listing
    request, bounded by the ISO forms of the two dates and without paging
    parameters. A fulfilled listing comes back as one summary per listed
    commit, in the same order, with the sha, message, author name and author
    date of that commit, and nothing is logged; a rejection is logged once
    and thrown again as it is. Nothing else of the process changes. *)
Theorem fetch_mirrors_source (W : World) now startDate endDate s t1 t2 :
  new_Date W startDate = Some t1 ->
  new_Date W endDate = Some t2 ->
  let request :=
    ListCommits (Some (Date_toISOString W t1)) (Some (Date_toISOString W t2)) None None in
  asked W now (fetchCommitsInDateRange W startDate endDate) s = [Asked request]
  /\ match answer W _ request (db s) with
     | inr response =>
         exists commits,
           exec W now (fetchCommitsInDateRange W startDate endDate) s = (s, inr commits)
           /\ length commits = length (data response)
           /\ forall i c, data response !! i = Some c ->
                commits !! i
                = Some {| sha := api_sha c; message := api_message c;
                          author := api_author_name c; date := api_author_date c |}
     | inl e =>
         exec W now (fetchCommitsInDateRange W startDate endDate) s
         = (log_error "Error fetching commits in date range:" e s, inl e)
     end.
Proof.
  intros H1 H2 request. unfold fetchCommitsInDateRange, toISOString.
  rewrite H1, H2. cbn [lift]. split.
  - cbn. fold request. by destruct (answer W _ request (db s)).
  - cbn. fold request. destruct (answer W _ request (db s)) as [e|response]; [done|].
    cbn. eexists. split_and!; [done | by rewrite length_map |].
    intros i c Hi. by rewrite list_lookup_fmap, Hi.
Qed.

(** The theorem at January 2024 on the sample repository. *)
Lemma fetch_mirrors_source_witness :
  let request :=
    ListCommits (Some (Date_toISOString Sample.healthy 1704067200000))
      (Some (Date_toISOString Sample.healthy 1706659200000)) None None in
  asked Sample.healthy 0
    (fetchCommitsInDateRange Sample.healthy (Some "2024-01-01") (Some "2024-01-31"))
    Sample.server0 = [Asked request]
  /\ match answer Sample.healthy _ request (db Sample.server0) with
     | inr response =>
         exists commits,
           exec Sample.healthy 0
             (fetchCommitsInDateRange Sample.healthy (Some "2024-01-01") (Some "2024-01-31"))
             Sample.server0 = (Sample.server0, inr commits)
           /\ length commits = length (data response)
           /\ forall i c, data response !! i = Some c ->
                commits !! i
                = Some {| sha := api_sha c; message := api_message c;
                          author := api_author_name c; date := api_author_date c |}
     | inl e =>
         exec Sample.healthy 0
           (fetchCommitsInDateRange Sample.healthy (Some "2024-01-01") (Some "2024-01-31"))
           Sample.server0
         = (log_error "Error fetching commits in date range:" e Sample.server0, inl e)
     end.
Proof.
  apply (fetch_mirrors_source Sample.healthy 0 (Some "2024-01-01") (Some "2024-01-31")
           Sample.server0); vm_compute; reflexivity.
Defined.

(** ** Summarizing *)

Section Details.

Variable W : World.

Lemma detail_of_exec now commit s :
  exec W now (detail_of W commit) s
  = (s, match answer W _ (GetCommit (sha commit)) (db s) with
        | inr d => inr (detail_from W commit d)
        | inl e => inl e
        end)
  /\ asked W now (detail_of W commit) s = [Asked (GetCommit (sha commit))].
Proof.
  unfold detail_of. split.
  - rewrite exec_mbind, exec_await_io. cbn [io_commit].
    by destruct (answer W _ _ (db s)).
  - rewrite asked_mbind, asked_await_io, exec_await_io. cbn [io_commit].
    by destruct (answer W _ _ (db s)).
Qed.

Lemma details_all_answered now commits datas s :
  Forall2 (fun c d => answer W _ (GetCommit (sha c)) (db s) = inr d) commits datas ->
  exec W now (promise_all (map (detail_of W) commits)) s
  = (s, inr (zip_with (detail_from W) commits datas))
  /\ asked W now (promise_all (map (detail_of W) commits)) s
     = map (fun c => Asked (GetCommit (sha c))) commits.
Proof.
  induction 1 as [|c d commits datas Hc _ [IHe IHa]]; [done|].
  cbn [map promise_all zip_with].
  destruct (detail_of_exec now c s) as [He Ha].
  split.
  - rewrite exec_bind, He, Hc, exec_bind, IHe. done.
  - rewrite asked_bind, Ha, He, Hc, asked_bind, IHa, IHe. cbn. by rewrite app_nil_r.
Qed.

Lemma details_one_rejected now commits s c e :
  c ∈ commits ->
  answer W _ (GetCommit (sha c)) (db s) = inl e ->
  (exists c' e', c' ∈ commits
     /\ answer W _ (GetCommit (sha c')) (db s) = inl e'
     /\ exec W now (promise_all (map (detail_of W) commits)) s = (s, inl e'))
  /\ Forall (fun r => is_chat r = false)
       (asked W now (promise_all (map (detail_of W) commits)) s).
Proof.
  induction commits as [|a l IH]; intros Hin He; [by apply elem_of_nil in Hin|].
  cbn [map promise_all].
  destruct (detail_of_exec now a s) as [Hea Haa].
  rewrite exec_bind, asked_bind, Hea, Haa.
  destruct (answer W _ (GetCommit (sha a)) (db s)) as [ea|da] eqn:Hans.
  - split; [|by repeat constructor].
    exists a, ea. split_and!; [left|done..].
  - apply elem_of_cons in Hin as [->|Hin]; [congruence|].
    destruct (IH Hin He) as [(c' & e' & Hc' & He' & Hexec) Hasked].
    rewrite exec_bind, asked_bind, Hexec. split.
    + exists c', e'. split_and!; [by right|done..].
    + cbn. rewrite app_nil_r. by constructor.
Qed.

End Details.

(** X3: When GitHub answers the detail request of every commit,
    [generateChangelogFromCommits] has asked for the details by sha in the
    order of the commit list and then, once, for a completion whose prompt
    is built from these details in the same order. Its result is that
    completion's content run through [JSON.parse]. A rejected completion or
    a content that does not parse is logged once and thrown again. *)
Theorem generate_prompts_in_order (W : World) now commits datas s :
  Forall2 (fun c d => answer W _ (GetCommit (sha c)) (db s) = inr d) commits datas ->
  let details := zip_with (detail_from W) commits datas in
  asked W now (generateChangelogFromCommits W commits) s
  = map (fun c => Asked (GetCommit (sha c))) commits ++ [Asked (ChatCreate (prompt details))]
  /\ exec W now (generateChangelogFromCommits W commits) s
     = match answer W _ (ChatCreate (prompt details)) (db s) with
       | inr content =>
           match JSON_parse W content with
           | inr draft => (s, inr draft)
           | inl e => (log_error "Error generating changelog:" e s, inl e)
           end
       | inl e => (log_error "Error generating changelog:" e s, inl e)
       end.
Proof.
  intros Hall details.
  destruct (details_all_answered W now commits datas s Hall) as [He Ha].
  fold details in He. unfold generateChangelogFromCommits.
  set (body := _ ≫= _).
  assert (exec W now body s
          = (s, match answer W _ (ChatCreate (prompt details)) (db s) with
                | inr content => JSON_parse W content
                | inl e => inl e
                end)) as Hbody.
  { subst body. rewrite exec_mbind, exec_await, He, exec_mbind, exec_await_io.
    cbn [io_commit]. destruct (answer W _ _ (db s)) as [e|content]; [done|].
    by rewrite exec_lift. }
  assert (asked W now body s
          = map (fun c => Asked (GetCommit (sha c))) commits
              ++ [Asked (ChatCreate (prompt details))]) as Hasked.
  { subst body. rewrite asked_mbind, asked_await, Ha, exec_await, He. f_equal.
    rewrite asked_mbind, asked_await_io, exec_await_io. cbn [io_commit].
    destruct (answer W _ _ (db s)) as [e|content]; [done|].
    by rewrite asked_lift. }
  split.
  - rewrite asked_try_catch, Hasked, Hbody.
    destruct (answer W _ _ (db s)) as [e|content]; [by rewrite app_nil_r|].
    destruct (JSON_parse W content); by rewrite app_nil_r.
  - rewrite exec_try_catch, Hbody.
    destruct (answer W _ _ (db s)) as [e|content]; [done|].
    by destruct (JSON_parse W content).
Qed.

(** The theorem at the two commits of the sample repository. *)
Lemma generate_prompts_in_order_witness :
  let commits := map summary_of Sample.commits in
  let d := {| stats_additions := 3; stats_deletions := 1;
              data_files := [ {| patch := Some "+x" |}; {| patch := None |} ] |} in
  let details := zip_with (detail_from Sample.healthy) commits [d; d] in
  asked Sample.healthy 0 (generateChangelogFromCommits Sample.healthy commits) Sample.server0
  = map (fun c => Asked (GetCommit (sha c))) commits ++ [Asked (ChatCreate (prompt details))]
  /\ exec Sample.healthy 0 (generateChangelogFromCommits Sample.healthy commits) Sample.server0
     = match answer Sample.healthy _ (ChatCreate (prompt details)) (db Sample.server0) with
       | inr content =>
           match JSON_parse Sample.healthy content with
           | inr draft => (Sample.server0, inr draft)
           | inl e => (log_error "Error generating changelog:" e Sample.server0, inl e)
           end
       | inl e => (log_error "Error generating changelog:" e Sample.server0, inl e)
       end.
Proof.
  apply (generate_prompts_in_order Sample.healthy 0 (map summary_of Sample.commits)).
  repeat constructor.
Defined.

(** X4: When GitHub rejects the detail request of a commit of the set,
    [generateChangelogFromCommits] throws the rejection of such a request,
    after logging it once, and no completion is asked for. *)
Theorem generate_needs_every_detail (W : World) now commits s c e :
  c ∈ commits ->
  answer W _ (GetCommit (sha c)) (db s) = inl e ->
  (exists c' e', c' ∈ commits
     /\ answer W _ (GetCommit (sha c')) (db s) = inl e'
     /\ exec W now (generateChangelogFromCommits W commits) s
        = (log_error "Error generating changelog:" e' s, inl e'))
  /\ Forall (fun r => is_chat r = false)
       (asked W now (generateChangelogFromCommits W commits) s).
Proof.
  intros Hin He.
  destruct (details_one_rejected W now commits s c e Hin He)
    as [(c' & e' & Hc' & He' & Hexec) Hasked].
  unfold generateChangelogFromCommits. split.
  - exists c', e'. split_and!; [done..|].
    by rewrite exec_try_catch, exec_mbind, exec_await, Hexec.
  - rewrite asked_try_catch, asked_mbind, asked_await, exec_mbind, exec_await, Hexec.
    cbn. by rewrite !app_nil_r.
Qed.

(** The theorem where GitHub has lost the second commit. *)
Lemma generate_needs_every_detail_witness :
  let commits := map summary_of Sample.commits in
  (exists c' e', c' ∈ commits
     /\ answer Cases.detail_down _ (GetCommit (sha c')) (db Sample.server0) = inl e'
     /\ exec Cases.detail_down 0 (generateChangelogFromCommits Cases.detail_down commits)
          Sample.server0
        = (log_error "Error generating changelog:" e' Sample.server0, inl e'))
  /\ Forall (fun r => is_chat r = false)
       (asked Cases.detail_down 0 (generateChangelogFromCommits Cases.detail_down commits)
          Sample.server0).
Proof.
  apply (generate_needs_every_detail Cases.detail_down 0 (map summary_of Sample.commits)
           Sample.server0
           {| sha := "a2"; message := "fix login"; author := "bob"; date := "2024-01-05" |}
           (Rejected "404 no commit found for the ref")).
  - right. left.
  - reflexivity.
Defined.

(** ** Patch previews *)

Lemma join_snoc sep (l : list string) x :
  l <> [] -> join sep (l ++ [x]) = join sep l +:+ sep +:+ x.
Proof.
  induction l as [|a l IH]; [done|]. intros _. destruct l as [|b l].
  - done.
  - change (join sep ((a :: b :: l) ++ [x]))
      with (a +:+ sep +:+ join sep ((b :: l) ++ [x])).
    rewrite IH by done.
    change (join sep (a :: b :: l)) with (a +:+ sep +:+ join sep (b :: l)).
    by rewrite !string_app_assoc.
Qed.

(** X5: A patch of at most five lines is previewed as it is, and no preview
    has more than six lines: five of the patch and the marker. *)
Theorem patch_preview_short_and_bounded (p : string) :
  ((length (split_nl p) <= 5)%nat -> patchPreview (Some p) = p)
  /\ (length (split_nl (patchPreview (Some p))) <= 6)%nat.
Proof.
  destruct (split_nl_lines p) as [Hlines Hjoin].
  destruct p as [|c p'] eqn:Hp; [by split; [|cbn; lia]|]. rewrite <- Hp in *.
  assert (patchPreview (Some p)
          = join nl (take 5 (split_nl p))
              +:+ (if decide (5 < length (split_nl p))%nat then nl +:+ "..." else ""))
    as Hprev by (by subst p).
  clear Hp. split.
  - intros Hshort. rewrite Hprev, decide_False by lia.
    by rewrite take_ge, string_app_nil_r by lia.
  - rewrite Hprev. case_decide as Hlong.
    + rewrite <- join_snoc.
      2: { destruct (split_nl p) as [|a l']; [by inversion Hlong|done]. }
      rewrite split_nl_join.
      * rewrite length_app, length_take. change (length ["..."]) with 1%nat. lia.
      * by destruct (take 5 (split_nl p)).
      * apply Forall_app. split; [by apply Forall_take|].
        repeat constructor. apply (bool_decide_unpack _). vm_compute. reflexivity.
    + rewrite string_app_nil_r, take_ge, Hjoin by lia. lia.
Qed.

(** The theorem at a patch of three lines. *)
Lemma patch_preview_short_and_bounded_witness :
  patchPreview (Some (join nl ["@@ -1 +1 @@"; "-old"; "+new"]))
  = join nl ["@@ -1 +1 @@"; "-old"; "+new"].
Proof.
  apply (proj1 (patch_preview_short_and_bounded (join nl ["@@ -1 +1 @@"; "-old"; "+new"]))).
  vm_compute. lia.
Defined.

(** ** The most recent commit *)

Lemma fold_later_any (W : World) (l : list CommitSummary) : forall acc,
  exists latest,
    fold_left (later_of W) l (Some acc) = Some latest
    /\ (latest = acc
        \/ (latest ∈ l
            /\ exists t0 t, Date_parse W (date acc) = Some t0
                 /\ Date_parse W (date latest) = Some t /\ t0 < t)).
Proof.
  induction l as [|x l IH]; intros acc; [by exists acc; auto|].
  cbn [fold_left]. unfold later_of at 2. cbn [new_Date].
  destruct (Date_parse W (date x)) as [tx|] eqn:Hx;
    [destruct (Date_parse W (date acc)) as [ta|] eqn:Ha|]; cbn [date_gt].
  - case_bool_decide as Hlt.
    + destruct (IH x) as (latest & Hf & [->|(Hin & t0 & t & H0 & Ht & Hlt')]).
      * exists x. split; [done|]. right. split; [left|].
        exists ta, tx. split_and!; [done..|lia].
      * exists latest. split; [done|]. right. split; [by right|].
        exists ta, t. rewrite Hx in H0. simplify_eq. split_and!; [done..|lia].
    + destruct (IH acc) as (latest & Hf & [->|(Hin & t0 & t & H0 & Ht & Hlt')]).
      * exists acc. auto.
      * exists latest. split; [done|]. right. split; [by right|].
        rewrite Ha in H0. simplify_eq. exists t0, t; split_and!; done.
  - destruct (IH acc) as (latest & Hf & [->|(Hin & t0 & t & H0 & Ht & Hlt')]).
    + exists acc. auto.
    + congruence.
  - destruct (IH acc) as (latest & Hf & [->|(Hin & t0 & t & H0 & Ht & Hlt')]).
    + exists acc. auto.
    + exists latest. split; [done|]. right. split; [by right|]. exists t0, t; split_and!; done.
Qed.

(** X6: The reduce of [storeChangelog] yields [null] on an empty commit set
    only. Otherwise it yields the first commit, unless a later commit of
    the set has a parseable date that is strictly later than the first
    commit's parseable date: a first commit whose date does not parse is
    kept whatever follows, and a commit whose date does not parse never
    takes its place. *)
Theorem most_recent_commit_edges (W : World) (c : CommitSummary) (l : list CommitSummary) :
  mostRecentCommit W [] = None
  /\ exists latest,
       mostRecentCommit W (c :: l) = Some latest
       /\ (latest = c
           \/ (latest ∈ l
               /\ exists t0 t, Date_parse W (date c) = Some t0
                    /\ Date_parse W (date latest) = Some t /\ t0 < t)).
Proof. split; [done|]. apply fold_later_any. Qed.

(** ** Storing the record *)

Lemma storeChangelog_outcome (W : World) changelog commits v t sd ed now s :
  match exec W now (storeChangelog W changelog commits v t sd ed) s with
  | (s', inr id) =>
      exists latest,
        mostRecentCommit W commits = Some latest
        /\ s' = add_doc id (changelogData changelog latest v t sd ed) s
        /\ asked W now (storeChangelog W changelog commits v t sd ed) s
           = [Asked (AddDoc (changelogData changelog latest v t sd ed))]
  | (s', inl e) =>
      s' = log_error "Error storing changelog:" e s
      /\ (commits = [] ->
          asked W now (storeChangelog W changelog commits v t sd ed) s = [])
      /\ (commits <> [] ->
          exists d, asked W now (storeChangelog W changelog commits v t sd ed) s
                    = [Asked (AddDoc d)])
  end.
Proof.
  destruct commits as [|c l].
  - rewrite storeChangelog_empty. split_and!; done.
  - destruct (mostRecentCommit_cons W c l) as [latest Hm].
    rewrite (storeChangelog_exec W _ _ latest) by done.
    unfold storeChangelog. rewrite Hm, asked_try_catch, asked_await_io, exec_await_io.
    destruct (answer W string _ (db s)) as [e|id] eqn:Hans.
    + split_and!; [done..|]. intros _. by eexists.
    + exists latest. split_and!; [done..|]. by rewrite app_nil_r.
Qed.

Lemma store_requests (W : World) changelog commits v t sd ed now s :
  asked W now (storeChangelog W changelog commits v t sd ed) s = []
  \/ exists d, asked W now (storeChangelog W changelog commits v t sd ed) s
               = [Asked (AddDoc d)].
Proof.
  pose proof (storeChangelog_outcome W changelog commits v t sd ed now s) as Hout.
  destruct (exec W now (storeChangelog W changelog commits v t sd ed) s) as [s' [e|id]].
  - destruct Hout as (_ & Hempty & Hsome).
    destruct commits as [|c l]; [left; by apply Hempty|right; by apply Hsome].
  - destruct Hout as (latest & _ & _ & ->). right. by eexists.
Qed.

(** X7: A record that [storeChangelog] persists carries the start and end
    dates exactly as they were passed, and the version and title as they
    were passed unless missing or empty, which are stored as [null]. *)
Theorem store_keeps_request_fields (W : World) changelog commits v t sd ed now s s' id :
  exec W now (storeChangelog W changelog commits v t sd ed) s = (s', inr id) ->
  exists d,
    db s' = db s ++ [(id, d)]
    /\ startDate d = sd
    /\ endDate d = ed
    /\ (v = None \/ v = Some "" -> version d = None)
    /\ (forall x, v = Some x -> x <> "" -> version d = Some x)
    /\ (t = None \/ t = Some "" -> title d = None)
    /\ (forall x, t = Some x -> x <> "" -> title d = Some x).
Proof.
  intros Hexec.
  pose proof (storeChangelog_outcome W changelog commits v t sd ed now s) as Hout.
  rewrite Hexec in Hout. destruct Hout as (latest & _ & -> & _).
  eexists. split; [reflexivity|]. cbn.
  split_and!; try done.
  - by intros [->| ->].
  - intros x -> Hx. by destruct x.
  - by intros [->| ->].
  - intros x -> Hx. by destruct x.
Qed.

(** The theorem at a request with an empty title. *)
Lemma store_keeps_request_fields_witness :
  exists d,
    db (exec Sample.healthy 0
          (storeChangelog Sample.healthy Sample.draft (map summary_of Sample.commits)
             (Some "1.2.0") (Some "") (Some "2024-01-01") (Some "2024-01-31"))
          Sample.server0).1
    = db Sample.server0 ++ [("doc0", d)]
    /\ startDate d = Some "2024-01-01"
    /\ endDate d = Some "2024-01-31"
    /\ (Some "1.2.0" = None \/ Some "1.2.0" = Some "" -> version d = None)
    /\ (forall x, Some "1.2.0" = Some x -> x <> "" -> version d = Some x)
    /\ (Some "" = None \/ Some "" = Some "" -> title d = None)
    /\ (forall x, Some "" = Some x -> x <> "" -> title d = Some x).
Proof.
  apply (store_keeps_request_fields Sample.healthy Sample.draft
           (map summary_of Sample.commits) (Some "1.2.0") (Some "")
           (Some "2024-01-01") (Some "2024-01-31") 0 Sample.server0).
  vm_compute. reflexivity.
Defined.

(** X8: [storeChangelog] asks the store at most once, and not at all for an
    empty commit set. When it throws, the collection is as it was and the
    exception has been logged once; when it returns an id, exactly one
    document was appended under that id and nothing was logged. The job
    table is never touched. *)
Theorem store_asks_once (W : World) changelog commits v t sd ed now s :
  let r := exec W now (storeChangelog W changelog commits v t sd ed) s in
  let requests := asked W now (storeChangelog W changelog commits v t sd ed) s in
  (commits = [] -> requests = [])
  /\ (requests = [] \/ exists d, requests = [Asked (AddDoc d)])
  /\ changelogJobs r.1 = changelogJobs s
  /\ match r.2 with
     | inl e =>
         db r.1 = db s /\ console r.1 = console s ++ [("Error storing changelog:", e)]
     | inr id =>
         (exists d, db r.1 = db s ++ [(id, d)]) /\ console r.1 = console s
     end.
Proof.
  intros r requests. subst r requests.
  pose proof (storeChangelog_outcome W changelog commits v t sd ed now s) as Hout.
  destruct (exec W now (storeChangelog W changelog commits v t sd ed) s) as [s' [e|id]].
  - destruct Hout as (-> & Hempty & Hsome). cbn. split_and!; try done.
    destruct commits as [|c l]; [left; by apply Hempty|right; by apply Hsome].
  - destruct Hout as (latest & Hm & -> & ->). cbn. split_and!; try done.
    + intros ->. discriminate.
    + right. by eexists.
    + by eexists.
Qed.

(** ** The background job as a whole *)

Lemma stages_outcome (W : World) now sd ed v t s :
  changelogJobs (exec W now (stages W sd ed v t) s).1 = changelogJobs s
  /\ journal (exec W now (stages W sd ed v t) s).1 = journal s
  /\ match (exec W now (stages W sd ed v t) s).2 with
     | inr (changelog, id) =>
         first_failure W now sd ed v t s = None
         /\ exists d, db (exec W now (stages W sd ed v t) s).1 = db s ++ [(id, d)]
     | inl e =>
         (exists stage, first_failure W now sd ed v t s = Some (stage, e))
         /\ db (exec W now (stages W sd ed v t) s).1 = db s
     end.
Proof.
  destruct (exec_no_set W false now _ s (stages_no_set W sd ed v t)) as [Hjobs Hjournal].
  split_and!; [done..|]. clear Hjobs Hjournal.
  rewrite stages_exec. unfold first_failure.
  pose proof (exec_no_add W true now _ s (fetch_quiet W sd ed)) as Hdb1.
  destruct (exec W now (fetchCommitsInDateRange W sd ed) s) as [s1 [e|commits]];
    cbn [fst snd] in *; [by eauto|].
  pose proof (exec_no_add W true now _ s1 (generate_quiet W commits)) as Hdb2.
  destruct (exec W now (generateChangelogFromCommits W commits) s1) as [s2 [e|changelog]];
    cbn [fst snd] in *; [split; [by eauto|congruence]|].
  pose proof (storeChangelog_outcome W changelog commits v t sd ed now s2) as Hout.
  destruct (exec W now (storeChangelog W changelog commits v t sd ed) s2) as [s3 [e|id]];
    cbn [fst snd].
  - destruct Hout as (-> & _). split; [by eauto|]. cbn. congruence.
  - destruct Hout as (latest & _ & -> & _). split; [done|]. eexists. cbn.
    f_equal. congruence.
Qed.

(** X9: [generateChangelogAsync] never throws. It writes the job table once,
    at its own job id, leaving every other entry alone. It writes the
    completed state exactly when none of the three stages failed, and then
    exactly one document has been added to the collection, under the id the
    job carries; otherwise it writes the error state and the collection is
    as it was. *)
Theorem job_outcome (W : World) now jobId sd ed v t s :
  let r := exec W now (generateChangelogAsync W jobId sd ed v t) s in
  r.2 = inr tt
  /\ exists j,
       changelogJobs r.1 = <[jobId := j]> (changelogJobs s)
       /\ journal r.1 = journal s ++ [(jobId, j)]
       /\ ((first_failure W now sd ed v t s = None
            /\ exists cl d, j = completed_job cl /\ db r.1 = db s ++ [(jc_id cl, d)])
           \/ (first_failure W now sd ed v t s <> None
               /\ j = error_job /\ db r.1 = db s)).
Proof.
  intros r. subst r. rewrite generateChangelogAsync_exec.
  destruct (stages_outcome W now sd ed v t s) as (Hjobs & Hjournal & Hres).
  destruct (exec W now (stages W sd ed v t) s) as [s' [e|[changelog id]]];
    cbn [fst snd] in *.
  - destruct Hres as [[stage Hfail] Hdb]. split; [done|].
    exists error_job. cbn. rewrite Hjobs, Hjournal. split_and!; [done..|].
    right. rewrite Hfail. by split_and!.
  - destruct Hres as [Hnone [d Hdb]]. split; [done|].
    eexists. cbn. rewrite Hjobs, Hjournal. split_and!; [done..|].
    left. split; [done|]. by eexists _, d.
Qed.

(** X10: A generation request whose background call is answered often enough,
    with nothing else happening in between, ends in a terminal state that
    the status route returns: the completed one exactly when no stage
    failed, the error one otherwise. No background call of the request is
    left suspended. *)
Theorem submit_ends_terminal (W : World) now later b n :
  let jobId := Number_toString now in
  let failure :=
    first_failure W now (body_startDate b) (body_endDate b) (body_version b)
      (body_title b) (set_job jobId processing_job (server n)) in
  exists k j,
    let n' := run W (replicate k (now, Settled (length (pending n)) (answer W)))
                (step W now (POST_changelogs (Some b)) n).1 in
    step W later (GET_status jobId) n' = (n', Some (RespJob j))
    /\ pending n' = pending n
    /\ ((failure = None /\ exists cl, j = completed_job cl)
        \/ (failure <> None /\ j = error_job)).
Proof.
  intros jobId failure. destruct (submit_runs_to_exec W now b n) as [k Hk].
  fold jobId in Hk. exists k.
  rewrite generateChangelogAsync_exec in Hk.
  destruct (stages_outcome W now (body_startDate b) (body_endDate b) (body_version b)
              (body_title b) (set_job jobId processing_job (server n)))
    as (_ & _ & Hres).
  fold failure in Hres.
  destruct (exec W now (stages W _ _ _ _) _) as [s' [e|[changelog id]]]; cbn [fst snd] in *.
  - exists error_job. cbn zeta. rewrite Hk. cbn [step server pending].
    rewrite get_status_set_job. split_and!; [done..|].
    right. destruct Hres as [[stage ->] _]. done.
  - eexists. cbn zeta. rewrite Hk. cbn [step server pending].
    rewrite get_status_set_job. split_and!; [done..|].
    left. destruct Hres as [-> _]. split; [done|]. by eexists.
Qed.

(** ** The life of a job *)

Lemma terminal_shape_completed j : terminal_shape j -> completed j = true.
Proof. by intros [->|[cl ->]]. Qed.

Lemma sets_terminal_quiet {A} ad (m : Async A) : avoids true ad m -> sets_terminal m.
Proof.
  induction m as [a|e|k IH|C op k IH|C io k IH]; cbn; auto.
  - intros [Hop Hk]. rewrite is_set_eff_write by auto. auto.
  - intros [_ Hk]. auto.
Qed.

Lemma sets_terminal_bind {A B} (m : Async A) (f : A -> Async B) :
  sets_terminal m -> (forall a, sets_terminal (f a)) -> sets_terminal (bind m f).
Proof.
  intros Hm Hf. induction m as [a|e|k IH|C op k IH|C io k IH]; cbn in *; auto.
  destruct Hm as [Hop Hk]. auto.
Qed.

Lemma sets_terminal_try_catch {A} (m : Async A) (h : Exn -> Async A) :
  sets_terminal m -> (forall e, sets_terminal (h e)) -> sets_terminal (try_catch m h).
Proof.
  intros Hm Hh. induction m as [a|e|k IH|C op k IH|C io k IH]; cbn in *; auto.
  destruct Hm as [Hop Hk]. auto.
Qed.

Lemma generateChangelogAsync_sets_terminal (W : World) jobId sd ed v t :
  sets_terminal (generateChangelogAsync W jobId sd ed v t).
Proof.
  apply sets_terminal_try_catch.
  - apply sets_terminal_bind; [apply (sets_terminal_quiet false), stages_no_set|].
    intros [changelog id]. cbn. split; [done|]. intros now.
    split; [|done]. right. by eexists.
  - intros e. cbn. split; [done|]. intros _. split; [by left|done].
Qed.

(** What [progress] says, with the shape of the state written. *)
Lemma drain_terminal id now (m : Async unit) s :
  sets_once id m -> sets_terminal m ->
  (sets_once id (drain now m s).2 /\ sets_terminal (drain now m s).2
   /\ changelogJobs (drain now m s).1 = changelogJobs s
   /\ journal (drain now m s).1 = journal s)
  \/ (is_done (drain now m s).2 = true
      /\ exists j, terminal_shape j
           /\ changelogJobs (drain now m s).1 = <[id := j]> (changelogJobs s)
           /\ journal (drain now m s).1 = journal s ++ [(id, j)]).
Proof.
  revert s. induction m as [a|e|k IH|C op k IH|C io k IH]; intros s Hm Ht;
    cbn in Hm, Ht; try done.
  - cbn. by apply IH.
  - destruct Ht as [Hop Hk].
    destruct op as [id' j| |label e]; cbn in Hm, Hop |- *.
    + destruct Hm as (-> & Hj & Hends). rewrite drain_ends by done. cbn.
      right. split; [by apply ends_is_done|]. by exists j.
    + by apply IH.
    + destruct (IH tt (log_error label e s) (Hm tt) (Hk tt)) as [H|H]; [left|right]; exact H.
  - cbn. left. by split_and!.
Qed.

Lemma settle_terminal id ans now (m : Async unit) s :
  sets_once id m -> sets_terminal m ->
  (sets_once id (settle ans now m s).2 /\ sets_terminal (settle ans now m s).2
   /\ changelogJobs (settle ans now m s).1 = changelogJobs s
   /\ journal (settle ans now m s).1 = journal s)
  \/ (is_done (settle ans now m s).2 = true
      /\ exists j, terminal_shape j
           /\ changelogJobs (settle ans now m s).1 = <[id := j]> (changelogJobs s)
           /\ journal (settle ans now m s).1 = journal s ++ [(id, j)]).
Proof.
  intros Hm Ht. destruct m as [a|e|k|C op k|C io k]; try done;
    try (by apply (drain_terminal id now)).
  cbn [settle]. destruct (io_commit_shared io (ans C io (db s)) s) as [Hj Hl].
  rewrite <- Hj, <- Hl. apply drain_terminal; [apply Hm|apply Ht].
Qed.

Lemma terminal_writes_mono id jl w :
  (terminal_writes id jl <= terminal_writes id (jl ++ [w]))%nat.
Proof. destruct w as [id' j]. rewrite terminal_writes_snoc. lia. Qed.

Lemma terminal_writes_here id jl j :
  completed j = true -> (0 < terminal_writes id (jl ++ [(id, j)]))%nat.
Proof. intros Hj. rewrite terminal_writes_snoc, decide_True by done. lia. Qed.

Lemma tasks_of_mono id ts t : (tasks_of id ts <= tasks_of id (ts ++ [t]))%nat.
Proof. rewrite tasks_of_snoc. lia. Qed.

Section Lifecycle.

Variable W : World.

Lemma step_lifecycle evs now ev n :
  consistent evs n -> lifecycle evs n ->
  lifecycle (evs ++ [(now, ev)]) (step W now ev n).1.
Proof.
  intros (Honce & _ & _) (Hterm & Hshape & Hwritten & Hcall & Hentry).
  destruct ev as [[b|]|id0|i ans].
  - (* a generation request *)
    rewrite step_post. cbn zeta.
    set (jobId := Number_toString now).
    set (s1 := set_job jobId processing_job (server n)).
    destruct (drain_terminal jobId now _ s1
      (generateChangelogAsync_sets_once W jobId (body_startDate b) (body_endDate b)
         (body_version b) (body_title b))
      (generateChangelogAsync_sets_terminal W jobId (body_startDate b) (body_endDate b)
         (body_version b) (body_title b)))
      as [(Hm1 & Hm2 & Hjobs & Hjl) | (Hdone & j & Hj & Hjobs & Hjl)];
      destruct (drain now _ s1) as [s3 m']; cbn [fst snd] in *;
      unfold lifecycle; cbn [server pending]; rewrite allocated_snoc;
      cbn [submit_time snd fst]; fold jobId; rewrite Hjobs, Hjl;
      subst s1; cbn [set_job changelogJobs journal]; unfold park.
    + rewrite (sets_once_not_done _ _ Hm1). split_and!.
      * apply Forall_app. split; [done|]. by constructor.
      * intros id j. destruct (decide (jobId = id)) as [->|Hne].
        -- rewrite lookup_insert_eq. intros [= <-]. by left.
        -- rewrite lookup_insert_ne by done. apply Hshape.
      * intros id j. destruct (decide (jobId = id)) as [->|Hne].
        -- rewrite lookup_insert_eq. by intros [= <-].
        -- rewrite lookup_insert_ne by done. intros Hid Hc.
           pose proof (Hwritten id j Hid Hc).
           pose proof (terminal_writes_mono id (journal (server n)) (jobId, processing_job)).
           lia.
      * intros id j. rewrite tasks_of_snoc. cbn [task_job].
        destruct (decide (jobId = id)) as [->|Hne]; [lia|].
        rewrite lookup_insert_ne by done. intros Hid Hc.
        pose proof (Hcall id j Hid Hc). lia.
      * intros id [Hid| ->%list_elem_of_singleton]%elem_of_app.
        -- destruct (decide (jobId = id)) as [->|Hne];
             [by rewrite lookup_insert_eq|rewrite lookup_insert_ne by done; auto].
        -- by rewrite lookup_insert_eq.
    + rewrite Hdone. split_and!.
      * done.
      * intros id j'. destruct (decide (jobId = id)) as [->|Hne].
        -- rewrite lookup_insert_eq. intros [= <-]. by right.
        -- rewrite !lookup_insert_ne by done. apply Hshape.
      * intros id j'. destruct (decide (jobId = id)) as [->|Hne].
        -- intros _ _. apply terminal_writes_here. by apply terminal_shape_completed.
        -- rewrite !lookup_insert_ne by done. intros Hid Hc.
           pose proof (Hwritten id j' Hid Hc).
           pose proof (terminal_writes_mono id (journal (server n)) (jobId, processing_job)).
           pose proof (terminal_writes_mono id
                         (journal (server n) ++ [(jobId, processing_job)]) (jobId, j)).
           lia.
      * intros id j'. destruct (decide (jobId = id)) as [->|Hne].
        -- rewrite lookup_insert_eq. intros [= <-] Hc.
           rewrite (terminal_shape_completed _ Hj) in Hc. done.
        -- rewrite !lookup_insert_ne by done. apply Hcall.
      * intros id [Hid| ->%list_elem_of_singleton]%elem_of_app.
        -- destruct (decide (jobId = id)) as [->|Hne];
             [by rewrite lookup_insert_eq|rewrite !lookup_insert_ne by done; auto].
        -- by rewrite lookup_insert_eq.
  - (* a request without a body *)
    unfold lifecycle. rewrite allocated_snoc. cbn. rewrite app_nil_r. done.
  - (* a status request *)
    unfold lifecycle. rewrite allocated_snoc. cbn. rewrite app_nil_r. done.
  - (* a collaborator answers *)
    unfold lifecycle. rewrite allocated_snoc. cbn [submit_time snd]. rewrite app_nil_r.
    cbn [step]. destruct (pending n !! i) as [t|] eqn:Hi; [|done].
    pose proof (Forall_lookup_1 _ _ _ _ Honce Hi) as Ht1. cbn beta in Ht1.
    pose proof (Forall_lookup_1 _ _ _ _ Hterm Hi) as Ht2. cbn beta in Ht2.
    destruct (settle_terminal (task_job t) ans now _ (server n) Ht1 Ht2)
      as [(Hm1 & Hm2 & Hjobs & Hjl) | (Hdone & j & Hj & Hjobs & Hjl)];
      destruct (settle ans now (task_body t) (server n)) as [s' m']; cbn [fst snd] in *.
    + rewrite (sets_once_not_done _ _ Hm1). cbn [server pending]. rewrite Hjobs, Hjl.
      split_and!; try done.
      * by apply Forall_insert.
      * intros id j. rewrite (tasks_of_insert id _ i t) by done. apply Hcall.
    + rewrite Hdone. cbn [server pending]. rewrite Hjobs, Hjl. split_and!.
      * by apply Forall_delete.
      * intros id j'. destruct (decide (task_job t = id)) as [<-|Hne].
        -- rewrite lookup_insert_eq. intros [= <-]. by right.
        -- rewrite lookup_insert_ne by done. apply Hshape.
      * intros id j'. destruct (decide (task_job t = id)) as [<-|Hne].
        -- intros _ _. apply terminal_writes_here. by apply terminal_shape_completed.
        -- rewrite lookup_insert_ne by done. intros Hid Hc.
           pose proof (Hwritten id j' Hid Hc).
           pose proof (terminal_writes_mono id (journal (server n)) (task_job t, j)).
           lia.
      * intros id j'. destruct (decide (task_job t = id)) as [<-|Hne].
        -- rewrite lookup_insert_eq. intros [= <-] Hc.
           rewrite (terminal_shape_completed _ Hj) in Hc. done.
        -- rewrite lookup_insert_ne by done. intros Hid Hc.
           pose proof (Hcall id j' Hid Hc) as Hpos.
           rewrite (tasks_of_delete id _ i t Hi), decide_False in Hpos by done. lia.
      * intros id Hid. destruct (decide (task_job t = id)) as [<-|Hne];
          [by rewrite lookup_insert_eq|rewrite lookup_insert_ne by done; auto].
Qed.

Lemma run_lifecycle evs : lifecycle evs (run W evs init).
Proof.
  induction evs as [|[now ev] evs IH] using rev_ind.
  - split_and!; [by constructor|..].
    + intros id j Hj. cbn in Hj. by rewrite lookup_empty in Hj.
    + intros id j Hj. cbn in Hj. by rewrite lookup_empty in Hj.
    + intros id j Hj. cbn in Hj. by rewrite lookup_empty in Hj.
    + intros id Hid. by apply elem_of_nil in Hid.
  - rewrite run_snoc. apply step_lifecycle; [apply run_consistent|done].
Qed.

End Lifecycle.

(** X11: In a history whose generation requests read pairwise different clock
    values, every job that was given an id has an entry, and the entry and
    the background call go together: the entry is [{status: 'processing',
    completed: false}] while the one background call of the job is
    suspended, and it is the error state or a completed state once that
    call has returned. The status is never anything else. *)
Theorem job_lifecycle (W : World) (evs : list (Z * Event)) id :
  NoDup (submit_times evs) ->
  id ∈ allocated evs ->
  let n := run W evs init in
  exists j,
    changelogJobs (server n) !! id = Some j
    /\ ((j = processing_job /\ tasks_of id (pending n) = 1%nat)
        \/ ((j = error_job \/ exists cl, j = completed_job cl)
            /\ tasks_of id (pending n) = 0%nat)).
Proof.
  intros Hnd Hid n. subst n.
  destruct (run_consistent W evs) as (_ & Hcount & _).
  destruct (run_lifecycle W evs) as (_ & Hshape & Hwritten & Hcall & Hentry).
  destruct (Hentry id Hid) as [j Hj]. exists j. split; [done|].
  assert (NoDup (allocated evs)) as Hids.
  { unfold allocated, Number_toString. by apply (NoDup_fmap_2 _). }
  specialize (Hcount id). rewrite (occurrences_NoDup id _ Hids Hid) in Hcount.
  destruct (Hshape id j Hj) as [->|Hterm].
  - left. split; [done|]. pose proof (Hcall id _ Hj eq_refl). lia.
  - right. split; [done|].
    pose proof (Hwritten id j Hj (terminal_shape_completed _ Hterm)). lia.
Qed.

(** The theorem at two requests one millisecond apart, the first answered
    by all its collaborators. *)
Lemma job_lifecycle_witness :
  let evs := [ (5, POST_changelogs (Some Sample.january));
               (6, POST_changelogs (Some Sample.january)) ]
             ++ replicate 5 (7, Settled 0 (answer Sample.healthy)) in
  let n := run Sample.healthy evs init in
  exists j,
    changelogJobs (server n) !! "5" = Some j
    /\ ((j = processing_job /\ tasks_of "5" (pending n) = 1%nat)
        \/ ((j = error_job \/ exists cl, j = completed_job cl)
            /\ tasks_of "5" (pending n) = 0%nat)).
Proof.
  apply (job_lifecycle Sample.healthy
           ([ (5, POST_changelogs (Some Sample.january));
              (6, POST_changelogs (Some Sample.january)) ]
            ++ replicate 5 (7, Settled 0 (answer Sample.healthy))) "5").
  - apply (bool_decide_unpack _). vm_compute. reflexivity.
  - apply (bool_decide_unpack _). vm_compute. reflexivity.
Defined.

Section Frame.

Variable W : World.

Lemma run_app evs more n : run W (evs ++ more) n = run W more (run W evs n).
Proof.
  revert n. induction evs as [|[now ev] evs IH]; intros n; [done|].
  cbn [app run]. apply IH.
Qed.

Lemma allocated_cons e more : allocated (e :: more) = allocated [e] ++ allocated more.
Proof.
  unfold allocated, submit_times. change (e :: more) with ([e] ++ more).
  by rewrite omap_app, fmap_app.
Qed.

(** An event that neither gives [id] to a request nor answers a call of
    job [id] leaves the entry of [id] alone. *)
Lemma step_frame evs now ev n id :
  consistent evs n ->
  tasks_of id (pending n) = 0%nat ->
  id ∉ allocated [(now, ev)] ->
  changelogJobs (server (step W now ev n).1) !! id = changelogJobs (server n) !! id
  /\ tasks_of id (pending (step W now ev n).1) = 0%nat.
Proof.
  intros (Honce & _ & _) Hnone Hid. destruct ev as [[b|]|id0|i ans]; try done.
  - assert (Number_toString now <> id) as Hne.
    { intros <-. apply Hid. cbn. left. }
    rewrite step_post. cbn zeta.
    set (jobId := Number_toString now) in *.
    set (s1 := set_job jobId processing_job (server n)).
    pose proof (drain_progress jobId now _ s1
      (generateChangelogAsync_sets_once W jobId (body_startDate b) (body_endDate b)
         (body_version b) (body_title b))) as Hprog.
    destruct (drain now _ s1) as [s3 m']. cbn [fst snd server pending] in *.
    unfold park.
    destruct Hprog as [(Hm' & Hjobs & _) | (Hdone & j & _ & Hjobs & _)]; rewrite Hjobs;
      subst s1; cbn [set_job changelogJobs].
    + rewrite (sets_once_not_done _ _ Hm'), tasks_of_snoc. cbn [task_job].
      rewrite decide_False, lookup_insert_ne by done. split; [done|lia].
    + rewrite Hdone, !lookup_insert_ne by done. done.
  - cbn [step]. destruct (pending n !! i) as [t|] eqn:Hi; [|done].
    assert (task_job t <> id) as Hne.
    { intros Heq. pose proof (tasks_of_pos id _ i t Hi Heq). lia. }
    pose proof (Forall_lookup_1 _ _ _ _ Honce Hi) as Ht. cbn beta in Ht.
    pose proof (settle_progress (task_job t) ans now _ (server n) Ht) as Hprog.
    destruct (settle ans now (task_body t) (server n)) as [s' m']. cbn [fst snd] in *.
    destruct Hprog as [(Hm' & Hjobs & _) | (Hdone & j & _ & Hjobs & _)];
      cbn [server pending]; rewrite Hjobs.
    + rewrite (sets_once_not_done _ _ Hm'). split; [done|].
      by rewrite (tasks_of_insert id _ i t).
    + rewrite Hdone, lookup_insert_ne by done. split; [done|].
      pose proof (tasks_of_delete id _ i t Hi) as Hdel.
      rewrite decide_False in Hdel by done. lia.
Qed.

Lemma run_frame more : forall evs n id,
  consistent evs n ->
  tasks_of id (pending n) = 0%nat ->
  id ∉ allocated more ->
  changelogJobs (server (run W more n)) !! id = changelogJobs (server n) !! id.
Proof.
  induction more as [|[now ev] more IH]; intros evs n id Hcons Hnone Hid; [done|].
  rewrite allocated_cons in Hid. apply not_elem_of_app in Hid as [Hhere Hlater].
  destruct (step_frame evs now ev n id Hcons Hnone Hhere) as [Hjobs Hnone'].
  cbn [run]. rewrite <- Hjobs.
  apply (IH (evs ++ [(now, ev)])); [by apply step_consistent|done..].
Qed.

End Frame.

(** X12: A terminal state is final: in a history whose generation requests
    read pairwise different clock values, once the entry of a job is
    completed (as the completed or the error state), no later event changes
    it, whatever the other jobs do. *)
Theorem terminal_is_final (W : World) (evs more : list (Z * Event)) id j :
  NoDup (submit_times (evs ++ more)) ->
  changelogJobs (server (run W evs init)) !! id = Some j ->
  completed j = true ->
  changelogJobs (server (run W (evs ++ more) init)) !! id = Some j.
Proof.
  intros Hnd Hj Hc.
  unfold submit_times in Hnd. rewrite omap_app in Hnd.
  apply NoDup_app in Hnd as (Hnd1 & Hdisj & _).
  destruct (run_consistent W evs) as (Honce & Hcount & Hkeys).
  destruct (run_lifecycle W evs) as (_ & _ & Hwritten & _ & _).
  assert (id ∈ allocated evs) as Hid by (apply Hkeys; by exists j).
  assert (NoDup (allocated evs)) as Hids.
  { unfold allocated, Number_toString. by apply (NoDup_fmap_2 _). }
  assert (tasks_of id (pending (run W evs init)) = 0%nat) as Hnone.
  { specialize (Hcount id). rewrite (occurrences_NoDup id _ Hids Hid) in Hcount.
    pose proof (Hwritten id j Hj Hc). lia. }
  assert (id ∉ allocated more) as Hfresh.
  { unfold allocated in *. intros (t' & -> & Ht')%list_elem_of_fmap.
    apply list_elem_of_fmap in Hid as (t0 & Heq & Ht0).
    apply (inj _) in Heq. subst t0. by apply (Hdisj t'). }
  rewrite run_app, <- Hj.
  apply (run_frame W more evs); [apply run_consistent|done..].
Qed.

(** The theorem at a job that has completed before a second request
    arrives and runs to its end. *)
Lemma terminal_is_final_witness :
  let evs := (5, POST_changelogs (Some Sample.january))
             :: replicate 5 (6, Settled 0 (answer Sample.healthy)) in
  let more := (8, POST_changelogs (Some Sample.no_dates))
              :: (9, POST_changelogs (Some Sample.january))
              :: replicate 5 (10, Settled 0 (answer Sample.healthy)) in
  let j := completed_job {| jc_id := "doc0"; jc_date := 6; jc_version := Some "1.2.0";
                            jc_title := None; jc_changes := changes Sample.draft |} in
  changelogJobs (server (run Sample.healthy (evs ++ more) init)) !! "5" = Some j.
Proof.
  cbn zeta.
  apply (terminal_is_final Sample.healthy
           ((5, POST_changelogs (Some Sample.january))
            :: replicate 5 (6, Settled 0 (answer Sample.healthy)))
           ((8, POST_changelogs (Some Sample.no_dates))
            :: (9, POST_changelogs (Some Sample.january))
            :: replicate 5 (10, Settled 0 (answer Sample.healthy)))).
  - apply (bool_decide_unpack _). vm_compute. reflexivity.
  - vm_compute. reflexivity.
  - reflexivity.
Defined.

(** ** The commits listing *)

Section Listing.

Variable W : World.

(** The listing with both dates converted: what is asked and what is
    answered, by how the two requests are answered. *)
Lemma get_commits_converted q now s since until_ :
  iso_or_undefined W (q_startDate q) = inr since ->
  iso_or_undefined W (q_endDate q) = inr until_ ->
  let page := num_or (parse_int W (q_page q)) 0 in
  let pageSize := num_or (parse_int W (q_pageSize q)) 10 in
  let probe := ListCommits since until_ (Some 1) (Some 1) in
  let listing := ListCommits since until_ (Some pageSize) (Some (num_add page 1)) in
  match answer W _ probe (db s) with
  | inl e =>
      exec W now (get_commits W q) s
      = (log_error "Error handling commits request:" e s,
         inr (RespError 500 "Failed to fetch commits"))
      /\ asked W now (get_commits W q) s = [Asked probe]
  | inr totalResponse =>
      let totalCommits :=
        num_or (parse_int W (headers_link totalResponse ≫= match_last_page W)) 1 in
      asked W now (get_commits W q) s = [Asked probe; Asked listing]
      /\ match answer W _ listing (db s) with
         | inl e =>
             exec W now (get_commits W q) s
             = (log_error "Error handling commits request:" e s,
                inr (RespError 500 "Failed to fetch commits"))
         | inr response =>
             exec W now (get_commits W q) s
             = (s, inr (RespCommits (map (item_of W) (data response))
                          (Math_ceil (num_div totalCommits pageSize))
                          (bool_decide (num_mul (num_add page 1) pageSize
                                        < totalCommits))))
         end
  end.
Proof.
  intros Hsince Huntil page pageSize probe listing.
  unfold get_commits. rewrite Hsince, Huntil. fold page pageSize.
  autorewrite with asked. cbn [io_commit]. fold probe.
  destruct (answer W _ probe (db s)) as [e|totalResponse]; [done|].
  autorewrite with asked. cbn [io_commit]. fold listing.
  destruct (answer W _ listing (db s)) as [e|response]; done.
Qed.

Lemma get_commits_unconverted q now s e :
  iso_or_undefined W (q_startDate q) = inl e
  \/ (exists since, iso_or_undefined W (q_startDate q) = inr since
        /\ iso_or_undefined W (q_endDate q) = inl e) ->
  exec W now (get_commits W q) s
  = (log_error "Error handling commits request:" e s,
     inr (RespError 500 "Failed to fetch commits"))
  /\ asked W now (get_commits W q) s = [].
Proof.
  intros [Hs|(since & Hs & Hu)]; unfold get_commits; rewrite Hs, ?Hu; done.
Qed.

Lemma iso_or_undefined_cases v :
  (truthy v = false /\ iso_or_undefined W v = inr None)
  \/ (truthy v = true /\ new_Date W v = None
      /\ iso_or_undefined W v = inl (RangeError "Invalid time value"))
  \/ (exists t, truthy v = true /\ new_Date W v = Some t
        /\ iso_or_undefined W v = inr (Some (Date_toISOString W t))).
Proof.
  unfold iso_or_undefined. destruct (truthy v); [|by left].
  right. destruct (new_Date W v) as [t|]; [right; by exists t|by left].
Qed.

End Listing.

(** X13: A date filter of the commits listing that is given but is not a
    parseable date makes the route answer 500 with [{error: 'Failed to
    fetch commits'}], after logging the [RangeError], without asking GitHub
    anything. *)
Theorem listing_unparseable_date (W : World) q now s :
  (truthy (q_startDate q) = true /\ new_Date W (q_startDate q) = None)
  \/ (truthy (q_endDate q) = true /\ new_Date W (q_endDate q) = None) ->
  exec W now (get_commits W q) s
  = (log_error "Error handling commits request:" (RangeError "Invalid time value") s,
     inr (RespError 500 "Failed to fetch commits"))
  /\ asked W now (get_commits W q) s = [].
Proof.
  intros Hbad. apply get_commits_unconverted.
  destruct (iso_or_undefined_cases W (q_startDate q))
    as [[Hf Hs]|[(Ht & Hn & Hs)|(t & Ht & Hn & Hs)]].
  - right. exists None. split; [done|].
    destruct Hbad as [[Ht _]|[Ht Hn]]; [congruence|].
    unfold iso_or_undefined. by rewrite Ht, Hn.
  - by left.
  - right. eexists. split; [done|].
    destruct Hbad as [[_ Hn']|[Ht' Hn']]; [congruence|].
    unfold iso_or_undefined. by rewrite Ht', Hn'.
Qed.

(** The theorem at [?startDate=yesterday]. *)
Lemma listing_unparseable_date_witness :
  let q := {| q_page := None; q_pageSize := None;
              q_startDate := Some "yesterday"; q_endDate := None |} in
  exec Sample.healthy 0 (get_commits Sample.healthy q) Sample.server0
  = (log_error "Error handling commits request:" (RangeError "Invalid time value")
       Sample.server0,
     inr (RespError 500 "Failed to fetch commits"))
  /\ asked Sample.healthy 0 (get_commits Sample.healthy q) Sample.server0 = [].
Proof.
  apply (listing_unparseable_date Sample.healthy
           {| q_page := None; q_pageSize := None;
              q_startDate := Some "yesterday"; q_endDate := None |} 0 Sample.server0).
  left. split; reflexivity.
Defined.

(** The listing has answered 500 and logged. *)
Ltac answered_500 :=
  cbn; split_and!; [done | done | lia | right; by eexists].

(** X14: The commits listing never throws and never touches the job table or
    the collection. It answers either with a page, leaving the console
    alone, or with 500 and [{error: 'Failed to fetch commits'}] whatever
    went wrong, the exception going to the console only. It asks GitHub at
    most twice. *)
Theorem listing_contains_failures (W : World) q now s :
  let r := exec W now (get_commits W q) s in
  changelogJobs r.1 = changelogJobs s
  /\ db r.1 = db s
  /\ (length (asked W now (get_commits W q) s) <= 2)%nat
  /\ ((exists items totalPages hasMore,
         r.2 = inr (RespCommits items totalPages hasMore) /\ console r.1 = console s)
      \/ (exists e,
            r.2 = inr (RespError 500 "Failed to fetch commits")
            /\ console r.1 = console s ++ [("Error handling commits request:", e)])).
Proof.
  intros r. subst r.
  destruct (iso_or_undefined W (q_startDate q)) as [e|since] eqn:Hs.
  { destruct (get_commits_unconverted W q now s e (or_introl Hs)) as [-> ->].
    answered_500. }
  destruct (iso_or_undefined W (q_endDate q)) as [e|until_] eqn:Hu.
  { destruct (get_commits_unconverted W q now s e
                (or_intror (ex_intro _ _ (conj Hs Hu)))) as [-> ->].
    answered_500. }
  pose proof (get_commits_converted W q now s _ _ Hs Hu) as Hout. cbn zeta in Hout.
  destruct (answer W _ (ListCommits since until_ (Some 1) (Some 1)) (db s)) as [e|probe].
  { destruct Hout as [-> ->]. answered_500. }
  destruct Hout as [-> Hout].
  destruct (answer W _ (ListCommits since until_ (Some (num_or _ 10)) _) (db s))
    as [e|listing]; rewrite Hout.
  { answered_500. }
  cbn. split_and!; [done|done|lia|]. left. by eexists _, _, _.
Qed.

Lemma get_commits_page (W : World) q now s s' items totalPages hasMore :
  exec W now (get_commits W q) s = (s', inr (RespCommits items totalPages hasMore)) ->
  exists since until_ probe,
    iso_or_undefined W (q_startDate q) = inr since
    /\ iso_or_undefined W (q_endDate q) = inr until_
    /\ answer W _ (ListCommits since until_ (Some 1) (Some 1)) (db s) = inr probe
    /\ asked W now (get_commits W q) s
       = [Asked (ListCommits since until_ (Some 1) (Some 1));
          Asked (ListCommits since until_
                   (Some (num_or (parse_int W (q_pageSize q)) 10))
                   (Some (num_add (num_or (parse_int W (q_page q)) 0) 1)))]
    /\ totalPages
       = Math_ceil
           (num_div (num_or (parse_int W (headers_link probe ≫= match_last_page W)) 1)
              (num_or (parse_int W (q_pageSize q)) 10))
    /\ hasMore
       = bool_decide (num_mul (num_add (num_or (parse_int W (q_page q)) 0) 1)
                        (num_or (parse_int W (q_pageSize q)) 10)
                      < num_or (parse_int W (headers_link probe ≫= match_last_page W)) 1).
Proof.
  intros Hexec.
  destruct (iso_or_undefined W (q_startDate q)) as [e|since] eqn:Hs.
  { destruct (get_commits_unconverted W q now s e (or_introl Hs)) as [Hx _]. congruence. }
  destruct (iso_or_undefined W (q_endDate q)) as [e|until_] eqn:Hu.
  { destruct (get_commits_unconverted W q now s e
                (or_intror (ex_intro _ _ (conj Hs Hu)))) as [Hx _]. congruence. }
  pose proof (get_commits_converted W q now s _ _ Hs Hu) as Hout. cbn zeta in Hout.
  destruct (answer W _ (ListCommits since until_ (Some 1) (Some 1)) (db s))
    as [e|probe] eqn:Hprobe; [destruct Hout; congruence|].
  destruct Hout as [Hasked Hout].
  destruct (answer W _ (ListCommits since until_ (Some (num_or _ 10)) _) (db s))
    as [e|listing]; [congruence|].
  rewrite Hout in Hexec. injection Hexec as _ _ <- <-.
  by exists since, until_, probe.
Qed.

(** X15: On a page of the commits listing with a page number [>= 0] and a page
    size [> 0], with [(page + 1) * pageSize] and [totalCommits] below 2^53
    in magnitude, [hasMore] says exactly that pages are left: [hasMore] is
    true if and only if [page + 1 < totalPages]. *)
Theorem listing_more_iff_pages_left (W : World) q now s since until_ probe listing :
  let page := num_or (parse_int W (q_page q)) 0 in
  let pageSize := num_or (parse_int W (q_pageSize q)) 10 in
  let totalCommits :=
    num_or (parse_int W (headers_link probe ≫= match_last_page W)) 1 in
  0 <= page ->
  0 < pageSize ->
  (page + 1) * pageSize < 2 ^ 53 ->
  Z.abs totalCommits < 2 ^ 53 ->
  iso_or_undefined W (q_startDate q) = inr since ->
  iso_or_undefined W (q_endDate q) = inr until_ ->
  answer W _ (ListCommits since until_ (Some 1) (Some 1)) (db s) = inr probe ->
  answer W _ (ListCommits since until_ (Some pageSize) (Some (page + 1))) (db s)
    = inr listing ->
  exists totalPages hasMore,
    exec W now (get_commits W q) s
    = (s, inr (RespCommits (map (item_of W) (data listing)) totalPages hasMore))
    /\ (hasMore = true <-> page + 1 < totalPages).
Proof.
  intros page pageSize totalCommits Hpage Hsize Hprod Htotal Hs Hu Hprobe Hlisting.
  pose proof (get_commits_converted W q now s since until_ Hs Hu) as Hout.
  cbn zeta in Hout. fold page pageSize in Hout.
  assert (num_add page 1 = page + 1) as Hadd by (apply round_int_exact; nia).
  rewrite Hadd, Hprobe, Hlisting in Hout. destruct Hout as [_ ->].
  fold totalCommits.
  assert (num_mul (page + 1) pageSize = (page + 1) * pageSize) as ->
    by (apply round_int_exact; nia).
  rewrite Math_ceil_num_div by done.
  eexists _, _. split; [done|].
  rewrite bool_decide_eq_true.
  pose proof (ceiling_spec totalCommits pageSize Hsize) as Hceil.
  split; intros H; nia.
Qed.

(** The theorem at the third page of ten of the sample repository. *)
Lemma listing_more_iff_pages_left_witness :
  exists totalPages hasMore,
    exec Sample.healthy 0
      (get_commits Sample.healthy
         {| q_page := Some "2"; q_pageSize := Some "10";
            q_startDate := None; q_endDate := None |}) Sample.server0
    = (Sample.server0,
       inr (RespCommits (map (item_of Sample.healthy) Sample.commits) totalPages hasMore))
    /\ (hasMore = true <-> 2 + 1 < totalPages).
Proof.
  apply (listing_more_iff_pages_left Sample.healthy
           {| q_page := Some "2"; q_pageSize := Some "10";
              q_startDate := None; q_endDate := None |} 0 Sample.server0
           None None
           {| headers_link := Some (Sample.last_link "25"); data := Sample.commits |}
           {| headers_link := Some (Sample.last_link "25"); data := Sample.commits |});
    vm_compute; (reflexivity || congruence).
Defined.



(** X17: A page of the commits listing comes from two requests to GitHub with
    the same date bounds: a probe for one commit on page 1, then the page
    itself, numbered from 1 where the route counts from 0: the number sent
    is the double [page + 1], which is the integer [page + 1] for every
    page below 2^53 in magnitude. A date filter that is missing or empty
    is not sent. The page size that is sent is never 0: a missing,
    unparseable or zero [pageSize] is replaced by 10, and a missing or
    unparseable [page] by 0. *)
Theorem listing_requests (W : World) q now s s' items totalPages hasMore :
  exec W now (get_commits W q) s = (s', inr (RespCommits items totalPages hasMore)) ->
  exists since until_ page pageSize,
    asked W now (get_commits W q) s
    = [Asked (ListCommits since until_ (Some 1) (Some 1));
       Asked (ListCommits since until_ (Some pageSize) (Some (num_add page 1)))]
    /\ (Z.abs page < 2 ^ 53 -> num_add page 1 = page + 1)
    /\ pageSize <> 0
    /\ (parse_int W (q_pageSize q) = None \/ parse_int W (q_pageSize q) = Some 0 ->
        pageSize = 10)
    /\ (forall z, parse_int W (q_pageSize q) = Some z -> z <> 0 -> pageSize = z)
    /\ (parse_int W (q_page q) = None -> page = 0)
    /\ (forall z, parse_int W (q_page q) = Some z -> page = z)
    /\ (truthy (q_startDate q) = false -> since = None)
    /\ (truthy (q_endDate q) = false -> until_ = None)
    /\ s' = s.
Proof.
  intros Hexec.
  destruct (get_commits_page W q now s s' items totalPages hasMore Hexec)
    as (since & until_ & probe & Hs & Hu & Hprobe & Hasked & _ & _).
  exists since, until_, (num_or (parse_int W (q_page q)) 0),
         (num_or (parse_int W (q_pageSize q)) 10).
  split; [done|].
  assert (s' = s) as ->.
  { pose proof (get_commits_converted W q now s since until_ Hs Hu) as Hout.
    cbn zeta in Hout. rewrite Hprobe in Hout. destruct Hout as [_ Hout].
    destruct (answer W _ (ListCommits since until_ (Some (num_or _ 10)) _) (db s))
      as [e|l]; rewrite Hout in Hexec; congruence. }
  split; [intros Hsafe; apply round_int_exact; lia|].
  unfold num_or, iso_or_undefined in *.
  split_and!; [| | | | | | |done].
  - destruct (parse_int W (q_pageSize q)) as [z|]; [|done]. by case_decide.
  - by intros [->| ->].
  - intros z -> Hz. by rewrite decide_False.
  - by intros ->.
  - intros z ->. by case_decide.
  - intros Hf. rewrite Hf in Hs. by injection Hs.
  - intros Hf. rewrite Hf in Hu. by injection Hu.
Qed.

(** The theorem at a listing without parameters on the sample repository. *)
Lemma listing_requests_witness :
  let q := {| q_page := None; q_pageSize := None; q_startDate := None; q_endDate := None |} in
  exists since until_ page pageSize,
    asked Sample.healthy 0 (get_commits Sample.healthy q) Sample.server0
    = [Asked (ListCommits since until_ (Some 1) (Some 1));
       Asked (ListCommits since until_ (Some pageSize) (Some (num_add page 1)))]
    /\ (Z.abs page < 2 ^ 53 -> num_add page 1 = page + 1)
    /\ pageSize <> 0
    /\ (parse_int Sample.healthy (q_pageSize q) = None
        \/ parse_int Sample.healthy (q_pageSize q) = Some 0 -> pageSize = 10)
    /\ (forall z, parse_int Sample.healthy (q_pageSize q) = Some z -> z <> 0 -> pageSize = z)
    /\ (parse_int Sample.healthy (q_page q) = None -> page = 0)
    /\ (forall z, parse_int Sample.healthy (q_page q) = Some z -> page = z)
    /\ (truthy (q_startDate q) = false -> since = None)
    /\ (truthy (q_endDate q) = false -> until_ = None)
    /\ Sample.server0 = Sample.server0.
Proof.
  apply (listing_requests Sample.healthy
           {| q_page := None; q_pageSize := None; q_startDate := None; q_endDate := None |}
           0 Sample.server0 Sample.server0
           (map (item_of Sample.healthy) Sample.commits) 3 true).
  vm_compute. reflexivity.
Defined.

(** ** The changelog listing *)

(** X18: The changelog listing asks the store for the documents by descending
    [startDate] with a limit that is never 0 (10 by default). It never
    touches the job table or the collection. When the store answers, the
    items are the documents in the store's order, [hasMore] is true exactly
    when the page is full, and the cursor is the [startDate] of the last
    item; an empty page has no cursor and never reports more. When the
    store fails, the route answers 500 with [{error: 'Failed to fetch
    changelogs'}] and the exception goes to the console only. *)
Theorem changelogs_page (W : World) (getDocs : FsQuery -> Exn + list Doc) q s :
  let query := changelogsQuery W q in
  let r := get_changelogs W getDocs q s in
  fs_orderBy query = "startDate" /\ fs_direction query = "desc"
  /\ fs_limit query <> 0
  /\ changelogJobs r.1 = changelogJobs s /\ db r.1 = db s
  /\ match getDocs query with
     | inr docs =>
         exists hasMore cursor,
           r = (s, RespChangelogs docs hasMore cursor)
           /\ (hasMore = true <-> Z.of_nat (length docs) = fs_limit query)
           /\ (docs = [] -> hasMore = false /\ cursor = None)
           /\ (forall doc, last docs = Some doc -> cursor = startDate doc.2)
     | inl e =>
         r = (log_error "Error fetching changelogs:" e s,
              RespChangelogsError 500 "Failed to fetch changelogs")
     end.
Proof.
  intros query r. subst query r.
  assert (fs_limit (changelogsQuery W q) <> 0) as Hlimit.
  { cbn. unfold num_or. destruct (parse_int W (cq_pageSize q)) as [z|]; [|done].
    by case_decide. }
  unfold get_changelogs.
  destruct (getDocs (changelogsQuery W q)) as [e|docs]; [by split_and!|].
  split_and!; try done.
  eexists _, _. split; [reflexivity|]. split_and!.
  - apply bool_decide_eq_true.
  - intros ->. split; [|done]. apply bool_decide_eq_false. cbn in *. lia.
  - by intros doc ->.
Qed.

(** X19: Following the cursor: the next request of a reader that passes back
    the cursor of a page asks the store to start after the date parsed
    from the [startDate] of the last item of that page, with the same order
    and limit. After an empty page, or a last item without a [startDate],
    there is no cursor to pass and the next request starts from the first
    page again. *)
Theorem changelogs_follow_cursor (W : World) (getDocs : FsQuery -> Exn + list Doc)
    q s s' docs hasMore cursor :
  get_changelogs W getDocs q s = (s', RespChangelogs docs hasMore cursor) ->
  let next := changelogsQuery W {| cq_pageSize := cq_pageSize q; cq_lastTimestamp := cursor |} in
  fs_orderBy next = fs_orderBy (changelogsQuery W q)
  /\ fs_direction next = fs_direction (changelogsQuery W q)
  /\ fs_limit next = fs_limit (changelogsQuery W q)
  /\ (forall doc x, last docs = Some doc -> startDate doc.2 = Some x -> x <> "" ->
        fs_startAfter next = Some (Date_parse W x))
  /\ (docs = [] \/ (exists doc, last docs = Some doc /\ truthy (startDate doc.2) = false) ->
      fs_startAfter next = None).
Proof.
  intros Hpage next. subst next. unfold get_changelogs in Hpage.
  destruct (getDocs (changelogsQuery W q)) as [e|docs']; [done|].
  injection Hpage as _ <- _ <-. split_and!; try done.
  - intros doc x -> Hx Hne. cbn. rewrite Hx. by destruct x.
  - intros [->|(doc & -> & Hf)]; [done|]. cbn. by rewrite Hf.
Qed.

(** The theorem at a first page holding the one stored record. *)
Lemma changelogs_follow_cursor_witness :
  let d := changelogData Sample.draft
             {| sha := "a2"; message := "fix login"; author := "bob"; date := "2024-01-05" |}
             None None (Some "2024-01-01") (Some "2024-01-31") in
  let q := {| cq_pageSize := Some "1"; cq_lastTimestamp := None |} in
  let next := changelogsQuery Sample.healthy
                {| cq_pageSize := cq_pageSize q; cq_lastTimestamp := Some "2024-01-01" |} in
  fs_orderBy next = fs_orderBy (changelogsQuery Sample.healthy q)
  /\ fs_direction next = fs_direction (changelogsQuery Sample.healthy q)
  /\ fs_limit next = fs_limit (changelogsQuery Sample.healthy q)
  /\ (forall doc x, last [("doc0", d)] = Some doc -> startDate doc.2 = Some x -> x <> "" ->
        fs_startAfter next = Some (Date_parse Sample.healthy x))
  /\ (([("doc0", d)] : list Doc) = []
      \/ (exists doc, last [("doc0", d)] = Some doc /\ truthy (startDate doc.2) = false) ->
      fs_startAfter next = None).
Proof.
  cbn zeta.
  apply (changelogs_follow_cursor Sample.healthy
           (fun _ => inr [("doc0",
              changelogData Sample.draft
                {| sha := "a2"; message := "fix login"; author := "bob";
                   date := "2024-01-05" |}
                None None (Some "2024-01-01") (Some "2024-01-31"))])
           {| cq_pageSize := Some "1"; cq_lastTimestamp := None |}
           Sample.server0 Sample.server0 _ true (Some "2024-01-01")).
  reflexivity.
Defined.

(** ** Cross-origin requests *)

Lemma indexOf_allowed (FRONTEND_URL origin : option string) :
  indexOf (allowedOrigins FRONTEND_URL) origin = -1
  <-> Some "http://localhost:3000" <> origin /\ FRONTEND_URL <> origin.
Proof.
  unfold allowedOrigins. cbn [indexOf].
  destruct (decide (Some "http://localhost:3000" = origin)) as [H1|H1].
  { split; [done|]. by intros [? _]. }
  destruct (decide (FRONTEND_URL = origin)) as [H2|H2].
  { split; [done|]. by intros [_ ?]. }
  done.
Qed.

(** X20: The origin check lets a request through exactly when it carries no
    origin (or an empty one), or its origin is [http://localhost:3000] or
    the configured front end; with no front end configured, only the first
    two. Every other origin is refused with the fixed CORS error. *)
Theorem cors_allows_listed_origins (FRONTEND_URL origin : option string) :
  (cors_origin FRONTEND_URL origin = (None, true)
   <-> origin = None \/ origin = Some "" \/ origin = Some "http://localhost:3000"
       \/ origin = FRONTEND_URL)
  /\ (cors_origin FRONTEND_URL origin = (None, true)
      \/ cors_origin FRONTEND_URL origin = (Some cors_message, false)).
Proof.
  unfold cors_origin. destruct origin as [[|c o]|]; cbn [truthy negb].
  - split; [|by left]. split; auto.
  - pose proof (indexOf_allowed FRONTEND_URL (Some (String c o))) as Hidx.
    case_decide as Hi.
    + apply Hidx in Hi as [H1 H2]. split; [|by right].
      split; [done|]. intros [?|[?|[?|?]]]; congruence.
    + split; [|by left]. split; [|done]. intros _.
      destruct (decide (Some "http://localhost:3000" = Some (String c o))) as [<-|H1];
        [auto|].
      destruct (decide (FRONTEND_URL = Some (String c o))) as [<-|H2]; [auto|].
      destruct Hi. by apply Hidx.
  - split; [|by left]. split; auto.
Qed.

(** ** What the stages leave alone *)

Section Stages.

Variable W : World.

Lemma asked_no_add {A} se now (m : Async A) s :
  avoids se true m -> Forall (fun r => is_store r = false) (asked W now m s).
Proof.
  revert s. induction m as [a|e|k IH|C op k IH|C io k IH]; intros s Hm; cbn in *; auto.
  - destruct Hm as [_ Hk]. destruct (do_eff now op s) as [s' b]. by apply IH.
  - destruct Hm as [Hio Hk]. constructor; [|by apply IH].
    specialize (Hio eq_refl). by destruct io.
Qed.

Lemma asked_stages now sd ed v t s :
  asked W now (stages W sd ed v t) s =
    asked W now (fetchCommitsInDateRange W sd ed) s
    ++ match exec W now (fetchCommitsInDateRange W sd ed) s with
       | (s1, inr commits) =>
           asked W now (generateChangelogFromCommits W commits) s1
           ++ match exec W now (generateChangelogFromCommits W commits) s1 with
              | (s2, inr changelog) =>
                  asked W now (storeChangelog W changelog commits v t sd ed) s2
              | (_, inl _) => []
              end
       | (_, inl _) => []
       end.
Proof.
  unfold stages. rewrite asked_mbind, asked_await, exec_await. f_equal.
  destruct (exec W now (fetchCommitsInDateRange W sd ed) s) as [s1 [e|commits]]; [done|].
  rewrite asked_mbind, asked_await, exec_await. f_equal.
  destruct (exec W now (generateChangelogFromCommits W commits) s1) as [s2 [e|changelog]];
    [done|].
  rewrite asked_mbind, asked_await, exec_await.
  destruct (exec W now (storeChangelog W changelog commits v t sd ed) s2) as [s3 [e|id]];
    by rewrite app_nil_r.
Qed.

Lemma asked_generateChangelogAsync now jobId sd ed v t s :
  asked W now (generateChangelogAsync W jobId sd ed v t) s
  = asked W now (stages W sd ed v t) s.
Proof.
  unfold generateChangelogAsync. rewrite asked_try_catch, asked_mbind, exec_mbind.
  destruct (exec W now (stages W sd ed v t) s) as [s' [e|[changelog id]]]; cbn;
    by rewrite !app_nil_r.
Qed.

End Stages.

(** X21: Fetching the commits and summarizing them read only: whether they
    succeed or fail, the job table, its journal and the collection are
    afterwards as they were, and the store has not been asked anything. *)
Theorem first_stages_read_only (W : World) now sd ed commits s :
  let r1 := exec W now (fetchCommitsInDateRange W sd ed) s in
  let r2 := exec W now (generateChangelogFromCommits W commits) s in
  (changelogJobs r1.1 = changelogJobs s /\ journal r1.1 = journal s /\ db r1.1 = db s
   /\ Forall (fun r => is_store r = false)
        (asked W now (fetchCommitsInDateRange W sd ed) s))
  /\ (changelogJobs r2.1 = changelogJobs s /\ journal r2.1 = journal s /\ db r2.1 = db s
      /\ Forall (fun r => is_store r = false)
           (asked W now (generateChangelogFromCommits W commits) s)).
Proof.
  intros r1 r2. subst r1 r2. split.
  - destruct (exec_no_set W true now _ s (fetch_quiet W sd ed)) as [Hj Hl].
    split_and!; [done..| |].
    + apply (exec_no_add W true), fetch_quiet.
    + apply (asked_no_add W true), fetch_quiet.
  - destruct (exec_no_set W true now _ s (generate_quiet W commits)) as [Hj Hl].
    split_and!; [done..| |].
    + apply (exec_no_add W true), generate_quiet.
    + apply (asked_no_add W true), generate_quiet.
Qed.

(** X22: A background job asks the store at most once, and as the last thing
    it asks: every request before is to GitHub or to the completion
    endpoint. *)
Theorem job_asks_store_last (W : World) now jobId sd ed v t s :
  exists before last_,
    asked W now (generateChangelogAsync W jobId sd ed v t) s = before ++ last_
    /\ Forall (fun r => is_store r = false) before
    /\ (last_ = [] \/ exists d, last_ = [Asked (AddDoc d)]).
Proof.
  rewrite asked_generateChangelogAsync, asked_stages.
  pose proof (asked_no_add W true now _ s (fetch_quiet W sd ed)) as Hfetch.
  destruct (exec W now (fetchCommitsInDateRange W sd ed) s) as [s1 [e|commits]].
  { exists (asked W now (fetchCommitsInDateRange W sd ed) s), []. auto. }
  pose proof (asked_no_add W true now _ s1 (generate_quiet W commits)) as Hgen.
  assert (Forall (fun r => is_store r = false)
            (asked W now (fetchCommitsInDateRange W sd ed) s
             ++ asked W now (generateChangelogFromCommits W commits) s1)) as Hboth
    by (by apply Forall_app).
  destruct (exec W now (generateChangelogFromCommits W commits) s1) as [s2 [e|changelog]].
  { exists (asked W now (fetchCommitsInDateRange W sd ed) s
            ++ asked W now (generateChangelogFromCommits W commits) s1), [].
    split; [by rewrite !app_nil_r|by auto]. }
  destruct (store_requests W changelog commits v t sd ed now s2) as [Hlast|[d Hlast]];
    rewrite Hlast.
  - exists (asked W now (fetchCommitsInDateRange W sd ed) s
            ++ asked W now (generateChangelogFromCommits W commits) s1), [].
    split; [by rewrite !app_nil_r|by auto].
  - exists (asked W now (fetchCommitsInDateRange W sd ed) s
            ++ asked W now (generateChangelogFromCommits W commits) s1),
           [Asked (AddDoc d)].
    split_and!; [by rewrite app_assoc | done | right; by eexists].
Qed.
